(** * The Telegram notifier of the XAU/USD trading assistant

    A shallow embedding of [railway_telegram_notifier.py]: the subscriber
    store ([load_users], [save_users], [register_user]), the command
    surface ([settings_command], [handle_message]), the dispatcher
    ([send_notification], [send_eod_report]) and the scheduling loop
    ([run_monitoring], [main]).

    Conventions of the embedding.
    - [self] is passed explicitly; a method returns the new [self].
    - What the process does to the outside (log lines, sends, replies, file
      writes, sleeps) is appended to [trace], oldest entry first.
    - What the outside does to the process (the transport failing, a file
      being absent, the clock) is an [environment], or an argument of the
      function that reads it.
    - A Python [str] is a [string]; [str.lower] is its ASCII restriction,
      which is the full one on ASCII text.
    - A reply through [update.message.reply_text] is taken to go out, and the
      waits between restarts are taken to run their course; a wait of the
      loop body can be cut short, by Ctrl-C or by an error.
    - The users file, when it parses, is taken to hold [{'users': [...]}]
      with complete records.
    - [run_monitoring] calls itself from its own handler.  How many of
      these calls can nest before the interpreter raises [RecursionError]
      depends on the frames of the libraries below them; it is a number of
      the [environment], [stack_room], below the recursion limit itself,
      and a run is followed up to that depth and no further (its result is
      then [TooDeep]). *)

From Stdlib Require Import String Ascii List ZArith Lia Bool Arith DecimalString.
Import ListNotations.
Open Scope string_scope.

(* ================================================================= *)
(** * Part I: definitions *)
(* ================================================================= *)

(** ** Python values *)

(** The exceptions the module meets.  [KeyboardInterrupt] and [SystemExit]
    derive from [BaseException] only, so [except Exception] lets them
    through; every other one is an [Exception], with its class and its
    text [str(e)]. *)
Inductive error_class :=
| JSONDecodeError
| UnicodeDecodeError
| OSError
| IndexError
| ValueError
| OverflowError
| TelegramError.

Inductive exn :=
| KeyboardInterrupt
| SystemExit (status : Z)
| Error (class : error_class) (text : string).

Definition is_Exception (e : exn) : bool :=
  match e with
  | KeyboardInterrupt | SystemExit _ => false
  | Error _ _ => true
  end.

(** [str(e)] as it appears in the f-strings of the log lines. *)
Definition exn_text (e : exn) : string :=
  match e with
  | KeyboardInterrupt => ""
  | SystemExit status => NilZero.string_of_int (Z.to_int status)
  | Error _ text => text
  end.

Inductive outcome (A : Type) :=
| Returns (a : A)
| Raises (e : exn).
Arguments Returns {A} a.
Arguments Raises {A} e.

(** A chat id is an [int] when it comes from Telegram and whatever the JSON
    file holds when it comes from disk. *)
Inductive handle :=
| IntId (n : Z)
| StrId (s : string).

(** Python's [str(chat_id)]. *)
Definition str (h : handle) : string :=
  match h with
  | IntId n => NilZero.string_of_int (Z.to_int n)
  | StrId s => s
  end.

(** [l.append(x)] on a Python list. *)
Definition push {A : Type} (l : list A) (x : A) : list A := (l ++ [x])%list.

Definition nl : string := String (ascii_of_nat 10) EmptyString.

(** [str.lower], on ASCII. *)
Definition lower_ascii (c : ascii) : ascii :=
  let n := nat_of_ascii c in
  if (65 <=? n)%nat && (n <=? 90)%nat then ascii_of_nat (n + 32) else c.

Fixpoint lower (s : string) : string :=
  match s with
  | EmptyString => EmptyString
  | String c rest => String (lower_ascii c) (lower rest)
  end.

(** [s.split(sep)] for a one-character separator: every occurrence cuts, so
    two separators in a row give an empty token. *)
Fixpoint split (sep : ascii) (s : string) : list string :=
  match s with
  | EmptyString => [EmptyString]
  | String c rest =>
      if Ascii.eqb c sep then EmptyString :: split sep rest
      else match split sep rest with
           | [] => [String c EmptyString]
           | tok :: toks => String c tok :: toks
           end
  end.

Definition space : ascii := " "%char.

(** [s.startswith(p)]. *)
Definition startswith (s p : string) : bool := String.prefix p s.

(** ** The subscriber store *)

Record preference_set := {
  price_alerts : bool;
  signal_alerts : bool;
  news_alerts : bool;
  eod_reports : bool
}.

Record user := {
  chat_id : handle;
  username : option string;
  registered_at : string;
  settings : preference_set
}.

(** The four keys of [user['settings']]. *)
Inductive flag := PriceAlerts | SignalAlerts | NewsAlerts | EodReports.

Definition get_flag (f : flag) (p : preference_set) : bool :=
  match f with
  | PriceAlerts => price_alerts p
  | SignalAlerts => signal_alerts p
  | NewsAlerts => news_alerts p
  | EodReports => eod_reports p
  end.

(** [settings[key] = value]. *)
Definition set_flag (f : flag) (value : bool) (p : preference_set) : preference_set :=
  match f with
  | PriceAlerts =>
      {| price_alerts := value; signal_alerts := signal_alerts p;
         news_alerts := news_alerts p; eod_reports := eod_reports p |}
  | SignalAlerts =>
      {| price_alerts := price_alerts p; signal_alerts := value;
         news_alerts := news_alerts p; eod_reports := eod_reports p |}
  | NewsAlerts =>
      {| price_alerts := price_alerts p; signal_alerts := signal_alerts p;
         news_alerts := value; eod_reports := eod_reports p |}
  | EodReports =>
      {| price_alerts := price_alerts p; signal_alerts := signal_alerts p;
         news_alerts := news_alerts p; eod_reports := value |}
  end.

Definition with_settings (p : preference_set) (u : user) : user :=
  {| chat_id := chat_id u; username := username u;
     registered_at := registered_at u; settings := p |}.

(** What [open(self.users_file)] followed by [json.load] meets. *)
Inductive file_state :=
| Missing                       (* os.path.exists is false *)
| Unreadable (e : string)       (* open raises OSError *)
| NotText (e : string)          (* the bytes do not decode: UnicodeDecodeError *)
| NotJson                       (* json.load raises JSONDecodeError *)
| Stored (us : list user).      (* json.load returns {'users': us} *)

(** What the process does to the outside. *)
Inductive event :=
| LogInfo (msg : string)
| LogError (msg : string)
| SendMessage (to : handle) (text : string)
| SendPhoto (to : handle) (path : string) (caption : option string)
| Reply (text : string)
| WriteUsers (us : list user)
| Sleep (seconds : Z)
| StartPolling
| StopPolling.

(** How [with open(self.users_file, 'w') as f: json.dump(...)] fails, with
    the text [str(e)] of its [Exception].  Opening for writing empties the
    file, so it matters on which side of [open] the failure falls. *)
Inductive write_fault :=
| CannotOpen (e : string)     (* open(..., 'w') raises: the file is as it was *)
| CannotWrite (e : string).   (* json.dump, or the flush on leaving the [with],
                                 raises: the file was emptied by open *)

(** What the outside does to the process.  A failure of the transport is an
    [Exception], given by its text [str(e)]. *)
Record environment := {
  disk_write : option write_fault;                (* the write of the users file fails *)
  send_message_fault : handle -> option string;   (* bot.send_message fails *)
  send_photo_fault : handle -> option string;     (* bot.send_photo fails *)
  path_exists : string -> bool;                   (* os.path.exists *)
  longest_sleep : Z;     (* the longest wait, in seconds, the platform's clock
                            takes as a deadline: years, where the waits
                            between restarts are minutes *)
  stack_room : nat       (* a number of calls of run_monitoring that can nest
                            under the one main makes, with all they call,
                            within the recursion limit of the interpreter *)
}.

Record notifier := {
  users : list user;          (* self.users['users'] *)
  users_file : file_state;    (* the file at self.users_file *)
  check_interval : Z;
  trace : list event
}.

Definition emit (e : event) (self : notifier) : notifier :=
  {| users := users self; users_file := users_file self;
     check_interval := check_interval self; trace := push (trace self) e |}.

Definition with_users (us : list user) (self : notifier) : notifier :=
  {| users := us; users_file := users_file self;
     check_interval := check_interval self; trace := trace self |}.

Definition with_users_file (f : file_state) (self : notifier) : notifier :=
  {| users := users self; users_file := f;
     check_interval := check_interval self; trace := trace self |}.

(** The list comprehension [[str(user['chat_id']) for user in users]]. *)
Definition known_ids (us : list user) : list string :=
  map (fun u => str (chat_id u)) us.

(** [x in l] on strings. *)
Definition py_in (x : string) (l : list string) : bool :=
  existsb (String.eqb x) l.

(** The lookup loop of [settings_command] and [handle_message]: the first
    record whose [str(chat_id)] is [id], with its position in the list (the
    loop variable is a reference to that element, not a copy). *)
Fixpoint find_user (id : string) (us : list user) : option (nat * user) :=
  match us with
  | [] => None
  | u :: rest =>
      if String.eqb (str (chat_id u)) id then Some (0%nat, u)
      else option_map (fun '(i, v) => (S i, v)) (find_user id rest)
  end.

(** Mutation through the reference the lookup loop holds. *)
Fixpoint update_at (i : nat) (f : user -> user) (us : list user) : list user :=
  match us, i with
  | [], _ => []
  | u :: rest, O => f u :: rest
  | u :: rest, S j => u :: update_at j f rest
  end.

Definition default_settings : preference_set :=
  {| price_alerts := true; signal_alerts := true;
     news_alerts := true; eod_reports := true |}.

Definition new_user (id : handle) (name : option string) (now : string) : user :=
  {| chat_id := id; username := name; registered_at := now;
     settings := default_settings |}.

Definition empty_registry : list user := [].

Section Store.
Variable env : environment.

(** [load_users]: only [json.JSONDecodeError] is caught. *)
Definition load_users (self : notifier) : outcome (list user) * notifier :=
  match users_file self with
  | Missing => (Returns empty_registry, self)
  | Unreadable m => (Raises (Error OSError m), self)
  | NotText m => (Raises (Error UnicodeDecodeError m), self)
  | NotJson =>
      (Returns empty_registry,
       emit (LogError "Error decoding users file, creating new one") self)
  | Stored us => (Returns us, self)
  end.

(** [save_users]: every [Exception] of the write is logged and dropped.
    When the failure comes after [open(..., 'w')], the file has been emptied
    and holds at most the beginning of the dump, which no [json.load] will
    parse: the registry that was on disk is gone. *)
Definition save_users (self : notifier) : notifier :=
  match disk_write env with
  | None =>
      emit (WriteUsers (users self)) (with_users_file (Stored (users self)) self)
  | Some (CannotOpen e) =>
      emit (LogError ("Error saving users file: " ++ e)) self
  | Some (CannotWrite e) =>
      emit (LogError ("Error saving users file: " ++ e))
           (with_users_file NotJson self)
  end.

(** [register_user]; [now] is [datetime.now().strftime(...)]. *)
Definition register_user (id : handle) (name : option string) (now : string)
    (self : notifier) : bool * notifier :=
  if negb (py_in (str id) (known_ids (users self))) then
    let self := with_users (push (users self) (new_user id name now)) self in
    let self := save_users self in
    (true, self)
  else (false, self).

(** ** The command surface *)

Definition not_registered : string :=
  "You are not registered. Use /start to register.".

Definition dont_understand : string :=
  "I don't understand that command. Use /help to see available commands.".

Definition on_off (b : bool) : string := if b then "ON" else "OFF".

Definition tick_on_off (b : bool) : string := if b then "✅ ON" else "❌ OFF".

Definition settings_message (p : preference_set) : string :=
  "🔧 Notification Settings:" ++ nl ++ nl ++
  "Price Alerts: " ++ tick_on_off (price_alerts p) ++ nl ++
  "Signal Alerts: " ++ tick_on_off (signal_alerts p) ++ nl ++
  "News Alerts: " ++ tick_on_off (news_alerts p) ++ nl ++
  "EOD Reports: " ++ tick_on_off (eod_reports p) ++ nl ++ nl ++
  "To change settings, reply with:" ++ nl ++
  "price on/off" ++ nl ++
  "signal on/off" ++ nl ++
  "news on/off" ++ nl ++
  "eod on/off".

(** [settings_command]; [chat] is [update.effective_chat.id]. *)
Definition settings_command (chat : handle) (self : notifier) : notifier :=
  let id := str chat in
  match find_user id (users self) with
  | None => emit (Reply not_registered) self
  | Some (_, user) => emit (Reply (settings_message (settings user))) self
  end.

(** The word that opens each settings reply and the flag it writes. *)
Definition keyword (f : flag) : string :=
  match f with
  | PriceAlerts => "price"
  | SignalAlerts => "signal"
  | NewsAlerts => "news"
  | EodReports => "eod"
  end.

Definition ack (f : flag) (value : bool) : string :=
  match f with
  | PriceAlerts => "Price alerts turned " ++ on_off value
  | SignalAlerts => "Signal alerts turned " ++ on_off value
  | NewsAlerts => "News alerts turned " ++ on_off value
  | EodReports => "EOD reports turned " ++ on_off value
  end.

(** One branch of the [if]/[elif] chain of [handle_message]:
    [value = text.split(' ')[1].lower() == 'on'], the write through
    [user], [save_users] and the reply. *)
Definition toggle (f : flag) (i : nat) (text : string) (self : notifier)
    : outcome unit * notifier :=
  match nth_error (split space text) 1 with
  | None => (Raises (Error IndexError "list index out of range"), self)
  | Some tok =>
      let value := String.eqb (lower tok) "on" in
      let self :=
        with_users
          (update_at i (fun u => with_settings (set_flag f value (settings u)) u)
             (users self)) self in
      let self := save_users self in
      (Returns tt, emit (Reply (ack f value)) self)
  end.

(** [handle_message]; [chat] is [update.effective_chat.id] and [message]
    is [update.message.text]. *)
Definition handle_message (chat : handle) (message : string) (self : notifier)
    : outcome unit * notifier :=
  let id := str chat in
  let text := lower message in
  match find_user id (users self) with
  | None => (Returns tt, emit (Reply not_registered) self)
  | Some (i, _) =>
      if startswith text "price " then toggle PriceAlerts i text self
      else if startswith text "signal " then toggle SignalAlerts i text self
      else if startswith text "news " then toggle NewsAlerts i text self
      else if startswith text "eod " then toggle EodReports i text self
      else (Returns tt, emit (Reply dont_understand) self)
  end.

End Store.

(** ** The dispatcher *)

(** What a collaborator ([notification_system], [report_generator]) answers:
    a value, or an [Exception] given by its text. *)
Inductive reply (A : Type) :=
| Gives (a : A)
| Throws (cause : string).
Arguments Gives {A} a.
Arguments Throws {A} cause.

(** A notification as [send_notification] reads it; [n_chart_path] is
    [notification['data']['chart_path']] when both keys are there and
    neither value is [None]. *)
Record notification := {
  n_type : string;
  n_title : string;
  n_message : string;
  n_chart_path : option string
}.

(** [report_data] as [send_eod_report] reads it: whether it has a
    ['chart_path'] key, and the path. *)
Record report_data := {
  rd_chart_path : option string
}.

(** What [self.notifier.generate_eod_report()] returns, as the two tests
    made of it tell it apart: [report_data is None] ([send_eod_report],
    [report_command]) and the truth value of [report_data]
    ([generate_and_send_eod_report]). *)
Inductive payload :=
| NoData                        (* None *)
| EmptyData                     (* a value that is not None and tests false: {} *)
| Data (rd : report_data).      (* a dict with at least one key *)

(** [if report_data:]. *)
Definition truth (v : payload) : bool :=
  match v with
  | Data _ => true
  | NoData | EmptyData => false
  end.

(** The payload as the code past [report_data is None] reads it: an empty
    dict has no ['chart_path'] key. *)
Definition data_of (v : payload) : option report_data :=
  match v with
  | NoData => None
  | EmptyData => Some {| rd_chart_path := None |}
  | Data rd => Some rd
  end.

(** The answers of the collaborators to one end-of-day report. *)
Record reporting := {
  generated : reply payload;                (* self.notifier.generate_eod_report() *)
  rendered : reply (option string);         (* self.reporter.generate_eod_report(report_data) *)
  formatted : reply string                  (* self.notifier.format_eod_report_message(report_data) *)
}.

(** Modelled from the spec: the [DeliveryReport] of the dispatcher contract,
    [{success_count, failures: sequence<(handle, cause)>}].  The source has no
    such value. *)
Record delivery_report := {
  success_count : nat;
  failures : list (handle * string)
}.

(** What a method of the dispatcher hands back to its caller. *)
Inductive value :=
| NoneValue
| Report (r : delivery_report).

(** Decimal rendering of [len(...)] in an f-string. *)
Definition str_nat (n : nat) : string := str (IntId (Z.of_nat n)).

Section Dispatcher.
Variable env : environment.

(** The first loop of [send_notification]. *)
Definition select_recipients (notification_type : string) (us : list user)
    : list user :=
  fold_left
    (fun recipients user =>
       let s := settings user in
       if String.eqb notification_type "price" && price_alerts s
       then push recipients user
       else if String.eqb notification_type "signal" && signal_alerts s
       then push recipients user
       else if String.eqb notification_type "news" && news_alerts s
       then push recipients user
       else recipients)
    us [].

(** The body of the second loop of [send_notification], with its [try]. *)
Definition notify_one (full_message : string) (chart_path : option string)
    (user : user) (self : notifier) : notifier :=
  let failed e :=
    LogError ("Error sending notification to " ++ str (chat_id user) ++ ": " ++ e) in
  match send_message_fault env (chat_id user) with
  | Some e => emit (failed e) self
  | None =>
      let self := emit (SendMessage (chat_id user) full_message) self in
      match chart_path with
      | None => self
      | Some path =>
          if path_exists env path then
            match send_photo_fault env (chat_id user) with
            | Some e => emit (failed e) self
            | None => emit (SendPhoto (chat_id user) path None) self
            end
          else self
      end
  end.

(** [send_notification]: it has no [return], so it hands back [None]. *)
Definition send_notification (n : notification) (self : notifier)
    : value * notifier :=
  let recipients := select_recipients (n_type n) (users self) in
  let full_message := "🔔 " ++ n_title n ++ nl ++ nl ++ n_message n in
  (NoneValue,
   fold_left (fun self user => notify_one full_message (n_chart_path n) user self)
     recipients self).

(** The first loop of [send_eod_report]. *)
Definition select_eod_recipients (us : list user) : list user :=
  fold_left
    (fun recipients user =>
       if eod_reports (settings user) then push recipients user else recipients)
    us [].

(** The body of the second loop of [send_eod_report], with its [try]. *)
Definition report_one (report_message : string) (rd : report_data)
    (user : user) (self : notifier) : notifier :=
  let failed e :=
    LogError ("Error sending EOD report to " ++ str (chat_id user) ++ ": " ++ e) in
  match send_message_fault env (chat_id user) with
  | Some e => emit (failed e) self
  | None =>
      let self := emit (SendMessage (chat_id user) report_message) self in
      match rd_chart_path rd with
      | None => self
      | Some path =>
          if path_exists env path then
            match send_photo_fault env (chat_id user) with
            | Some e => emit (failed e) self
            | None => emit (SendPhoto (chat_id user) path (Some "EOD Chart")) self
            end
          else self
      end
  end.

(** [send_eod_report]: an [Exception] of the collaborators is not caught
    here; every [return] is bare. *)
Definition send_eod_report (report : option report_data) (col : reporting)
    (self : notifier) : reply value * notifier :=
  match report with
  | None => (Gives NoneValue, emit (LogError "No report data to send") self)
  | Some rd =>
      match rendered col with
      | Throws e => (Throws e, self)
      | Gives None =>
          (Gives NoneValue, emit (LogError "Failed to generate HTML report") self)
      | Gives (Some _) =>
          match formatted col with
          | Throws e => (Throws e, self)
          | Gives report_message =>
              let recipients := select_eod_recipients (users self) in
              (Gives NoneValue,
               fold_left (fun self user => report_one report_message rd user self)
                 recipients self)
          end
      end
  end.

(** [run_check_cycle]; [checked] is what [self.notifier.run_check_cycle()]
    answers. *)
Definition run_check_cycle (checked : reply (list notification))
    (self : notifier) : notifier :=
  let self := emit (LogInfo "Running check cycle...") self in
  match checked with
  | Throws e => emit (LogError ("Error in check cycle: " ++ e)) self
  | Gives [] => emit (LogInfo "No notifications generated") self
  | Gives notifications =>
      let self :=
        emit (LogInfo ("Generated " ++ str_nat (length notifications)
                         ++ " notifications")) self in
      fold_left (fun self n => snd (send_notification n self)) notifications self
  end.

(** [generate_and_send_eod_report]: every [Exception] ends in a log line.
    The payload is tested for truth, not for [None]: an empty one is a
    failure too. *)
Definition generate_and_send_eod_report (col : reporting) (self : notifier)
    : notifier :=
  let self := emit (LogInfo "Generating EOD report...") self in
  match generated col with
  | Throws e => emit (LogError ("Error generating EOD report: " ++ e)) self
  | Gives report_data =>
      if truth report_data then
        let self := emit (LogInfo "EOD report generated") self in
        match send_eod_report (data_of report_data) col self with
        | (Throws e, self) =>
            emit (LogError ("Error generating EOD report: " ++ e)) self
        | (Gives _, self) => self
        end
      else emit (LogError "Failed to generate EOD report") self
  end.

End Dispatcher.

(** ** The scheduling loop *)

Record date := {
  year : Z;
  month : Z;
  day : Z
}.

Definition date_eqb (a b : date) : bool :=
  Z.eqb (year a) (year b) && Z.eqb (month a) (month b) && Z.eqb (day a) (day b).

(** A reading of [datetime.now()]. *)
Record datetime := {
  today : date;       (* current_time.date() *)
  hour : nat;
  minute : nat
}.

Definition two_digits (n : nat) : string :=
  if (n <? 10)%nat then "0" ++ str_nat n else str_nat n.

(** [current_time.strftime('%H:%M')]. *)
Definition strftime_HM (t : datetime) : string :=
  two_digits (hour t) ++ ":" ++ two_digits (minute t).

(** [last_eod_report_date != current_date], the watermark being [None]
    until the first report. *)
Definition watermark_differs (last : option date) (current : date) : bool :=
  match last with
  | None => true
  | Some d => negb (date_eqb d current)
  end.

(** [a >= b] on Python strings. *)
Definition str_ge (a b : string) : bool := String.leb b a.

(** What one pass of the [while True] body meets. *)
Record cycle := {
  checked : reply (list notification);   (* self.notifier.run_check_cycle() *)
  now : datetime;                        (* datetime.now() *)
  report : reporting;                    (* the collaborators, if the report is due *)
  wake : option exn                      (* what cuts [time.sleep] short, if anything *)
}.

(** What [self.updater.start_polling()] and [self.updater.stop()] raise, call
    after call; past the end of a list the call succeeds. *)
Record polling := {
  starts : list (option exn);
  stops : list (option exn)
}.

(** How a call of [run_monitoring] ends, as far as it is followed: it is
    [Pending] when the cycles supplied end first, and [TooDeep] when its
    handler calls [run_monitoring] with no room left to nest the call.  From there
    the interpreter raises [RecursionError] at some call under the new
    one; which call, and what the handlers and [finally] clauses on the
    way out do with the stack that is left, is not followed. *)
Inductive run :=
| Returned
| Raised (e : exn)
| Pending
| TooDeep.

(** The longest wait [time.sleep] converts: it counts nanoseconds in 64
    bits. *)
Definition sleep_max : Z := 9223372036.

(** [time.sleep(seconds)] on an [int].  The length is converted first, which
    fails beyond [sleep_max] on either side of zero; a negative length is
    refused next; and a platform that sleeps up to a deadline on its clock
    refuses a length that carries the deadline past the end of the clock
    (Linux answers [errno 22]). *)
Definition sleep (env : environment) (seconds : Z) (wake : option exn)
    (self : notifier) : outcome unit * notifier :=
  if (seconds <? - sleep_max)%Z || (sleep_max <? seconds)%Z then
    (Raises (Error OverflowError "timestamp too large to convert to C _PyTime_t"),
     self)
  else if (seconds <? 0)%Z then
    (Raises (Error ValueError "sleep length must be non-negative"), self)
  else if (longest_sleep env <? seconds)%Z then
    (Raises (Error OSError "[Errno 22] Invalid argument"), self)
  else
    match wake with
    | Some e => (Raises e, self)
    | None => (Returns tt, emit (Sleep seconds) self)
    end.

Definition start_polling (p : polling) (self : notifier)
    : outcome unit * polling * notifier :=
  let rest := {| starts := tl (starts p); stops := stops p |} in
  match starts p with
  | Some e :: _ => (Raises e, rest, self)
  | _ => (Returns tt, rest, emit (LogInfo "Bot started polling") (emit StartPolling self))
  end.

Definition stop_polling (p : polling) (self : notifier)
    : outcome unit * polling * notifier :=
  let rest := {| starts := starts p; stops := tl (stops p) |} in
  match stops p with
  | Some e :: _ => (Raises e, rest, self)
  | _ => (Returns tt, rest, emit (LogInfo "Bot stopped polling") (emit StopPolling self))
  end.

Definition str_Z (n : Z) : string := str (IntId n).

(** [sys.getrecursionlimit()], which the module leaves at the default of
    CPython. *)
Definition recursion_limit : nat := 1000.

Section Scheduler.
Variable env : environment.

(** The test that guards the end-of-day report. *)
Definition eod_due (eod_report_time : string) (last_eod_report_date : option date)
    (current_time : datetime) : bool :=
  str_ge (strftime_HM current_time) eod_report_time
  && watermark_differs last_eod_report_date (today current_time).

(** One pass of the body of [while True]: the new watermark, or the
    exception that leaves the loop. *)
Definition iteration (eod_report_time : string) (c : cycle)
    (last_eod_report_date : option date) (self : notifier)
    : outcome (option date) * notifier :=
  let self := run_check_cycle env (checked c) self in
  let current_time := now c in
  let current_date := today current_time in
  let '(last_eod_report_date, self) :=
    if eod_due eod_report_time last_eod_report_date current_time then
      (Some current_date, generate_and_send_eod_report env (report c) self)
    else (last_eod_report_date, self) in
  let self :=
    emit (LogInfo ("Sleeping for " ++ str_Z (check_interval self) ++ " seconds..."))
      self in
  match sleep env (check_interval self) (wake c) self with
  | (Returns _, self) => (Returns last_eod_report_date, self)
  | (Raises e, self) => (Raises e, self)
  end.

(** The [finally] clause of [run_monitoring]. *)
Definition finally_stop (r : run * list cycle * polling * notifier)
    : run * list cycle * polling * notifier :=
  let '(res, cs, p, self) := r in
  match res with
  | Pending | TooDeep => r
  | _ =>
      match stop_polling p self with
      | (Raises e, p, self) => (Raised e, cs, p, self)
      | (Returns _, p, self) => (res, cs, p, self)
      end
  end.

(** The [try] statement of [run_monitoring] on the cycles [cs] the outside
    supplies: the [while True] loop, the two handlers and the [finally]
    clause.  [again] is the call [self.run_monitoring(eod_report_time)] of
    the second handler; the [time.sleep(60)] before it is taken to run
    its course. *)
Section Try.
Variable eod_report_time : string.
Variable again :
  list cycle -> polling -> notifier -> run * list cycle * polling * notifier.

Fixpoint monitoring_loop (cs : list cycle) (last_eod_report_date : option date)
    (p : polling) (self : notifier) {struct cs}
    : run * list cycle * polling * notifier :=
  match cs with
  | [] => (Pending, [], p, self)
  | c :: rest =>
      match iteration eod_report_time c last_eod_report_date self with
      | (Returns last, self) => monitoring_loop rest last p self
      | (Raises KeyboardInterrupt, self) =>
          finally_stop
            (Returned, rest, p, emit (LogInfo "Monitoring stopped by user") self)
      | (Raises e, self) =>
          if is_Exception e then
            let self :=
              emit (LogError ("Error in monitoring: " ++ exn_text e)) self in
            let self :=
              emit (LogInfo "Restarting monitoring in 60 seconds...") self in
            let self := emit (Sleep 60) self in
            finally_stop (again rest p self)
          else finally_stop (Raised e, rest, p, self)
      end
  end.
End Try.

(** A call of [run_monitoring] with [room] calls of it still allowed to
    nest under it: how the call ends, the cycles it left, and the new
    [self].  [start_polling] is outside the [try]. *)
Fixpoint run_monitoring_nested (room : nat) (eod_report_time : string)
    (cs : list cycle) (p : polling) (self : notifier) {struct cs}
    : run * list cycle * polling * notifier :=
  let self :=
    emit (LogInfo ("Starting continuous monitoring every "
                     ++ str_Z (check_interval self) ++ " seconds")) self in
  let self := emit (LogInfo ("EOD report time: " ++ eod_report_time)) self in
  match start_polling p self with
  | (Raises e, p, self) => (Raised e, cs, p, self)
  | (Returns _, p, self) =>
      monitoring_loop eod_report_time
        (fun rest p self =>
           match room with
           | O => (TooDeep, rest, p, self)
           | S room => run_monitoring_nested room eod_report_time rest p self
           end)
        cs None p self
  end.

(** The call [self.run_monitoring(eod_report_time)] of the second handler,
    made from a call with [room] calls still allowed to nest under it. *)
Definition restart (room : nat) (eod_report_time : string) (rest : list cycle)
    (p : polling) (self : notifier) : run * list cycle * polling * notifier :=
  match room with
  | O => (TooDeep, rest, p, self)
  | S room => run_monitoring_nested room eod_report_time rest p self
  end.

(** The calls of [run_monitoring] that can nest under the one [main]
    makes: what the environment leaves room for, and in any case no more
    than the limit less the four frames of the module, of [main], of that
    first call and of whatever the innermost call calls. *)
Definition nesting_room : nat := Nat.min (stack_room env) (recursion_limit - 4).

(** [run_monitoring] as [main] calls it. *)
Definition run_monitoring (eod_report_time : string) (cs : list cycle)
    (p : polling) (self : notifier) : run * list cycle * polling * notifier :=
  run_monitoring_nested nesting_room eod_report_time cs p self.

(** ** The entry point *)

Inductive exit :=
| Exit (status : Z)          (* [main] returns (0) or calls [sys.exit] *)
| Uncaught (e : exn)         (* an exception leaves [main] *)
| Running                    (* the cycles supplied ended first *)
| Unfollowed.                (* the restarts nested past [nesting_room] *)

Definition max_retries : nat := 5.

(** [TelegramNotifier(token=token, check_interval=CHECK_INTERVAL)]: of the
    constructor, the loading of the store is what is followed. *)
Definition init (file : file_state) (interval : Z) (log : list event)
    : outcome notifier :=
  let self :=
    {| users := []; users_file := file; check_interval := interval; trace := log |} in
  match load_users self with
  | (Returns us, self) => Returns (with_users us self)
  | (Raises e, _) => Raises e
  end.

(** The [while retry_count < max_retries] loop of [main].  Each turn takes
    one unit of [fuel]; [main] supplies [max_retries] of them, which is
    enough ([retry_loop_ends]): [None] is never the answer of [main]. *)
Fixpoint retry_loop (fuel : nat) (eod_report_time : string) (retry_count : nat)
    (cs : list cycle) (p : polling) (self : notifier) : option (exit * notifier) :=
  match fuel with
  | O => None
  | S fuel =>
      if (retry_count <? max_retries)%nat then
        match run_monitoring eod_report_time cs p self with
        | (Returned, _, _, self) => Some (Exit 0, self)
        | (Pending, _, _, self) => Some (Running, self)
        | (TooDeep, _, _, self) => Some (Unfollowed, self)
        | (Raised e, cs, p, self) =>
            if is_Exception e then
              let retry_count := S retry_count in
              let self :=
                emit (LogError ("Error in main loop (retry " ++ str_nat retry_count
                                  ++ "/" ++ str_nat max_retries ++ "): "
                                  ++ exn_text e)) self in
              if (retry_count <? max_retries)%nat then
                let sleep_time := (60 * Z.of_nat retry_count)%Z in
                let self :=
                  emit (LogInfo ("Restarting in " ++ str_Z sleep_time ++ " seconds..."))
                    self in
                let self := emit (Sleep sleep_time) self in
                retry_loop fuel eod_report_time retry_count cs p self
              else
                Some (Exit 1, emit (LogError "Maximum retries reached, exiting") self)
            else Some (Uncaught e, self)
        end
      else Some (Exit 0, self)
  end.

(** [main]; [token], [interval] and [eod_report_time] are the three
    environment settings read at import. *)
Definition main (token : option string) (interval : Z) (eod_report_time : string)
    (file : file_state) (cs : list cycle) (p : polling)
    : option (exit * list event) :=
  let missing :=
    match token with
    | None => true
    | Some t => String.eqb t ""
    end in
  if missing then
    Some (Exit 1, [LogError "TELEGRAM_BOT_TOKEN environment variable not set"])
  else
    match init file interval [] with
    | Raises e => Some (Uncaught e, [])
    | Returns notifier =>
        option_map (fun '(x, self) => (x, trace self))
          (retry_loop max_retries eod_report_time 0 cs p notifier)
    end.

End Scheduler.

(** ** Vocabulary of the statements *)

(** The records of the store that answer to a handle. *)
Definition records_of (id : handle) (us : list user) : list user :=
  filter (fun u => String.eqb (str (chat_id u)) (str id)) us.

Fixpoint has_space (s : string) : bool :=
  match s with
  | EmptyString => false
  | String c rest => Ascii.eqb c space || has_space rest
  end.

(** The replies and the error lines of a trace, in order. *)
Definition replies (t : list event) : list string :=
  flat_map (fun e => match e with Reply m => [m] | _ => [] end) t.

Definition errors (t : list event) : list string :=
  flat_map (fun e => match e with LogError m => [m] | _ => [] end) t.

(** The handles a text went out to, in order. *)
Definition messaged (t : list event) : list handle :=
  flat_map (fun e => match e with SendMessage h _ => [h] | _ => [] end) t.

(** The waits of a trace, in order. *)
Definition sleeps (t : list event) : list Z :=
  flat_map (fun e => match e with Sleep n => [n] | _ => [] end) t.

(** How often the scheduling loop was entered. *)
Definition loop_starts (t : list event) : nat :=
  length (filter (fun e => match e with StartPolling => true | _ => false end) t).

(** The three categories of a notification, the ['type'] each is written
    as, and the flag each is routed by. *)
Inductive category := Price | Signal | News.

Definition type_name (c : category) : string :=
  match c with
  | Price => "price"
  | Signal => "signal"
  | News => "news"
  end.

Definition category_flag (c : category) : flag :=
  match c with
  | Price => PriceAlerts
  | Signal => SignalAlerts
  | News => NewsAlerts
  end.

(** What a recipient the transport serves gets: the text, then the chart
    when there is one and its file exists. *)
Definition delivered (env : environment) (text : string) (chart : option string)
    (caption : option string) (u : user) : list event :=
  SendMessage (chat_id u) text ::
  match chart with
  | Some path => if path_exists env path then [SendPhoto (chat_id u) path caption] else []
  | None => []
  end.

(** The line that opens every run of [generate_and_send_eod_report], and
    how often a trace has it. *)
Definition digest_line : string := "Generating EOD report...".

Definition is_digest (e : event) : bool :=
  match e with
  | LogInfo m => String.eqb m digest_line
  | _ => false
  end.

Definition digests (t : list event) : nat := length (filter is_digest t).

(** The events of a check cycle and of a fan-out: sends and log lines other
    than [digest_line]. *)
Definition background (e : event) : bool :=
  match e with
  | SendMessage _ _ | SendPhoto _ _ _ | LogError _ => true
  | LogInfo m => negb (String.eqb m digest_line)
  | _ => false
  end.

(** [b] is [a] with [extra] appended to its trace. *)
Definition extends (a b : notifier) (extra : list event) : Prop :=
  users b = users a /\
  users_file b = users_file a /\
  check_interval b = check_interval a /\
  trace b = (trace a ++ extra)%list.

Definition adds_background (a b : notifier) : Prop :=
  exists extra, extends a b extra /\ forallb background extra = true.

(** A cycle whose sleep runs its course, the date of a cycle, and whether
    its clock reading has reached the threshold. *)
Definition quiet (c : cycle) : Prop := wake c = None.

Definition on_date (d : date) (c : cycle) : Prop := today (now c) = d.

Definition reached (eod_report_time : string) (c : cycle) : bool :=
  str_ge (strftime_HM (now c)) eod_report_time.

(** Modelled from the spec: "compares lexicographically greater than or
    equal to" a threshold.  [lex_le a b] is the order of two strings read
    character by character, each by its code, a string coming before those
    it is a proper prefix of. *)
Fixpoint lex_le (a b : string) : Prop :=
  match a, b with
  | EmptyString, _ => True
  | String _ _, EmptyString => False
  | String x a, String y b =>
      (nat_of_ascii x < nat_of_ascii y)%nat \/ (x = y /\ lex_le a b)
  end.

(** Modelled from the spec: the reading of the clock of a cycle, as
    [HH:MM], is at or after the threshold. *)
Definition at_or_after (eod_report_time : string) (c : cycle) : Prop :=
  lex_le eod_report_time (strftime_HM (now c)).

(** A length [time.sleep] takes in this environment. *)
Definition sleepable (env : environment) (seconds : Z) : Prop :=
  (0 <= seconds <= sleep_max)%Z /\ (seconds <= longest_sleep env)%Z.

(** Cycles of the date [d] whose sleep runs its course: one read before
    the threshold, one read at or after it, one read at any time. *)
Definition before_threshold (eod_report_time : string) (d : date) (c : cycle) : Prop :=
  quiet c /\ on_date d c /\ ~ at_or_after eod_report_time c.

Definition past_threshold (eod_report_time : string) (d : date) (c : cycle) : Prop :=
  quiet c /\ on_date d c /\ at_or_after eod_report_time c.

Definition same_day (d : date) (c : cycle) : Prop :=
  quiet c /\ on_date d c.

(** A cycle whose sleep ends on an [Exception], and one whose sleep ends on
    Ctrl-C. *)
Definition faults (c : cycle) : Prop :=
  exists e, wake c = Some e /\ is_Exception e = true.

Definition interrupted (c : cycle) : Prop := wake c = Some KeyboardInterrupt.

(** How often [eod_due] holds along the cycles, the watermark moving as the
    loop moves it, and the watermark at the end. *)
Fixpoint due_count (eod_report_time : string) (last : option date) (cs : list cycle)
    : nat :=
  match cs with
  | [] => 0
  | c :: rest =>
      if eod_due eod_report_time last (now c)
      then S (due_count eod_report_time (Some (today (now c))) rest)
      else due_count eod_report_time last rest
  end.

Fixpoint watermark_after (eod_report_time : string) (last : option date)
    (cs : list cycle) : option date :=
  match cs with
  | [] => last
  | c :: rest =>
      if eod_due eod_report_time last (now c)
      then watermark_after eod_report_time (Some (today (now c))) rest
      else watermark_after eod_report_time last rest
  end.

(** ** Sample data *)

Definition env_ok : environment :=
  {| disk_write := None;
     send_message_fault := fun _ => None;
     send_photo_fault := fun _ => None;
     path_exists := fun _ => true;
     longest_sleep := 9000000000;
     stack_room := 100 |}.

Definition blank : notifier :=
  {| users := []; users_file := Missing; check_interval := 600; trace := [] |}.

Definition subscriber (id : Z) (p : preference_set) : user :=
  {| chat_id := IntId id; username := None;
     registered_at := "2024-03-01 09:00:00"; settings := p |}.

Definition ann : user := subscriber 101 default_settings.
Definition bob : user := subscriber 102 default_settings.
Definition cho : user := subscriber 103 default_settings.

Definition with_three : notifier := with_users [ann; bob; cho] blank.

(** A transport that serves everyone but [bob]. *)
Definition blocked : string := "Forbidden: bot was blocked by the user".

Definition env_bob_blocked : environment :=
  {| disk_write := None;
     send_message_fault :=
       fun h => if String.eqb (str h) "102" then Some blocked else None;
     send_photo_fault := fun _ => None;
     path_exists := fun _ => true;
     longest_sleep := 9000000000;
     stack_room := 100 |}.

Definition price_alert : notification :=
  {| n_type := "price"; n_title := "Price Alert";
     n_message := "XAU/USD moved 1.2% in the last hour";
     n_chart_path := Some "/app/charts/price_alert.png" |}.

Definition eod_ready : reporting :=
  {| generated := Gives (Data {| rd_chart_path := Some "/app/charts/eod_chart.png" |});
     rendered := Gives (Some "/app/reports/eod_report.html");
     formatted := Gives "EOD Report: XAU/USD closed higher" |}.

Definition eod_failing : reporting :=
  {| generated := Throws "No data available";
     rendered := Gives None;
     formatted := Gives "" |}.

Definition march (d : Z) : date := {| year := 2024; month := 3; day := d |}.

(** A cycle with no notification, at [h]:[m] on [d]. *)
Definition cycle_at (d : date) (h m : nat) (col : reporting) (w : option exn) : cycle :=
  {| checked := Gives [];
     now := {| today := d; hour := h; minute := m |};
     report := col;
     wake := w |}.

Definition calm : polling := {| starts := []; stops := [] |}.

Definition disk_full : exn := Error OSError "[Errno 28] No space left on device".

(** ** The rest of the module *)

Section Commands.
Variable env : environment.

Definition welcome : string :=
  "🎉 Welcome to XAU/USD Trading Assistant! 🎉" ++ nl ++ nl ++
  "I'll send you alerts for:" ++ nl ++
  "📈 Trading signals (Buy/Sell)" ++ nl ++
  "💰 Price movements" ++ nl ++
  "📰 Important gold-related news" ++ nl ++
  "📊 End-of-day reports" ++ nl ++ nl ++
  "Use /help to see available commands.".

Definition welcome_back : string :=
  "Welcome back to XAU/USD Trading Assistant!" ++ nl ++ nl ++
  "Use /help to see available commands.".

(** [start_command]; [chat] is [update.effective_chat.id], [name] is
    [update.effective_user.username].  The message goes out through
    [context.bot.send_message], outside any [try]. *)
Definition start_command (chat : handle) (name : option string) (now : string)
    (self : notifier) : outcome unit * notifier :=
  let '(created, self) := register_user env chat name now self in
  let message := if created then welcome else welcome_back in
  match send_message_fault env chat with
  | Some e => (Raises (Error TelegramError e), self)
  | None => (Returns tt, emit (SendMessage chat message) self)
  end.

(** [report_command]; [chat] is the chat of [update.message], which
    [reply_photo] sends to.  Every [Exception] of the collaborators ends in
    a log line and a reply. *)
Definition report_command (chat : handle) (col : reporting) (self : notifier)
    : notifier :=
  let failed e self :=
    emit (Reply ("Error generating report: " ++ e))
      (emit (LogError ("Error in report command: " ++ e)) self) in
  let self := emit (Reply "Generating EOD report...") self in
  match generated col with
  | Throws e => failed e self
  | Gives report_data =>
      match data_of report_data with
      | None => emit (Reply "Failed to generate EOD report.") self
      | Some rd =>
          match rendered col with
          | Throws e => failed e self
          | Gives None => emit (Reply "Failed to generate HTML report.") self
          | Gives (Some _) =>
              match formatted col with
              | Throws e => failed e self
              | Gives report_message =>
                  let self := emit (Reply report_message) self in
                  match rd_chart_path rd with
                  | None => self
                  | Some path =>
                      if path_exists env path then
                        match send_photo_fault env chat with
                        | Some e => failed e self
                        | None => emit (SendPhoto chat path (Some "EOD Chart")) self
                        end
                      else self
                  end
              end
          end
      end
  end.

(** [send_message_to_all]: every registered user, whatever the settings. *)
Definition send_message_to_all (message : string) (self : notifier) : notifier :=
  fold_left
    (fun self user =>
       match send_message_fault env (chat_id user) with
       | Some e =>
           emit (LogError ("Error sending message to " ++ str (chat_id user)
                             ++ ": " ++ e)) self
       | None => emit (SendMessage (chat_id user) message) self
       end)
    (users self) self.

(** What [open(photo_path, 'rb')] raises on a file that is not there. *)
Definition no_such_file (path : string) : string :=
  "[Errno 2] No such file or directory: '" ++ path ++ "'".

(** [send_photo_to_all]: the file is opened inside the [try], once per
    user. *)
Definition send_photo_to_all (photo_path : string) (caption : option string)
    (self : notifier) : notifier :=
  fold_left
    (fun self user =>
       let failed e :=
         LogError ("Error sending photo to " ++ str (chat_id user) ++ ": " ++ e) in
       if path_exists env photo_path then
         match send_photo_fault env (chat_id user) with
         | Some e => emit (failed e) self
         | None => emit (SendPhoto (chat_id user) photo_path caption) self
         end
       else emit (failed (no_such_file photo_path)) self)
    (users self) self.

End Commands.

(** ** More vocabulary *)

(** The write of [handle_message] through the record it found. *)
Definition write_flag (f : flag) (value : bool) (u : user) : user :=
  with_settings (set_flag f value (settings u)) u.

(** The transport takes a text for this user. *)
Definition served (env : environment) (u : user) : bool :=
  match send_message_fault env (chat_id u) with
  | None => true
  | Some _ => false
  end.

(** The transport takes a photo for this user. *)
Definition photo_served (env : environment) (u : user) : bool :=
  match send_photo_fault env (chat_id u) with
  | None => true
  | Some _ => false
  end.

(** The chart of a notification or of a report is there to be sent. *)
Definition chart_there (env : environment) (chart : option string) : bool :=
  match chart with
  | Some path => path_exists env path
  | None => false
  end.

(** A recipient of a fan-out for whom an error line is written: the text
    fails, or the text goes out and the chart, which is there, fails. *)
Definition let_down (env : environment) (chart : option string) (u : user) : bool :=
  negb (served env u) || (chart_there env chart && negb (photo_served env u)).

(** The handles a photo went out to, and the stops of polling. *)
Definition photographed (t : list event) : list handle :=
  flat_map (fun e => match e with SendPhoto h _ _ => [h] | _ => [] end) t.

Definition loop_stops (t : list event) : nat :=
  length (filter (fun e => match e with StopPolling => true | _ => false end) t).

Definition writes (t : list event) : list (list user) :=
  flat_map (fun e => match e with WriteUsers us => [us] | _ => [] end) t.

(** What a pass of the loop may add to the trace: anything but the start
    and stop of polling, a reply, or a write of the users file. *)
Definition cycle_event (e : event) : bool :=
  match e with
  | StartPolling | StopPolling | Reply _ | WriteUsers _ => false
  | _ => true
  end.

(** The store of [b] is the store of [a]. *)
Definition same_store (a b : notifier) : Prop :=
  users b = users a /\
  users_file b = users_file a /\
  check_interval b = check_interval a.

(** The three collaborators of the report all answer, the first with
    something other than [None]. *)
Definition report_ready (col : reporting) : option (report_data * string) :=
  match generated col, rendered col, formatted col with
  | Gives v, Gives (Some _), Gives text =>
      option_map (fun rd => (rd, text)) (data_of v)
  | _, _, _ => None
  end.

(** The three collaborators all answer, the first with a payload that
    tests true. *)
Definition digest_ready (col : reporting) : option (report_data * string) :=
  match generated col, rendered col, formatted col with
  | Gives (Data rd), Gives (Some _), Gives text => Some (rd, text)
  | _, _, _ => None
  end.

(** A reading of the clock within the day, and its minutes since midnight. *)
Definition clock (t : datetime) : Prop := (hour t < 24)%nat /\ (minute t < 60)%nat.

Definition minutes (t : datetime) : nat := (60 * hour t + minute t)%nat.

(** The digit of [d] in ASCII. *)
Definition digit (d : nat) : ascii := ascii_of_nat (48 + d).

(** What a fan-out shows when each step shows, for its recipient: the text
    if the transport takes it, the photo if it takes that too and the chart
    is there, and one error line if the recipient is let down. *)
Definition step_shows (env : environment) (chart : option string)
    (step : notifier -> user -> notifier) : Prop :=
  forall a u,
    same_store a (step a u) /\
    messaged (trace (step a u))
      = (messaged (trace a) ++ (if served env u then [chat_id u] else []))%list /\
    photographed (trace (step a u))
      = (photographed (trace a) ++
         (if served env u && chart_there env chart && photo_served env u
          then [chat_id u] else []))%list /\
    length (errors (trace (step a u)))
      = (length (errors (trace a)) + (if let_down env chart u then 1 else 0))%nat.

(** The call of [run_monitoring] was followed to its end. *)
Definition ended (res : run) : Prop :=
  res = Returned \/ exists e, res = Raised e.

(** What every call of [run_monitoring] ([offset] 0) and every run of its
    [try] statement ([offset] 1, polling having started) keeps: the store;
    and, when stopping polling never fails, as many stops as starts once
    the call has ended; and, when starting never fails either, no
    [Exception] on the way out. *)
Definition run_invariant (offset : nat) (p : polling) (a : notifier)
    (r : run * list cycle * polling * notifier) : Prop :=
  let '(res, _, p', b) := r in
  same_store a b /\
  (stops p = [] ->
   stops p' = [] /\
   (ended res ->
    (loop_stops (trace b) + loop_starts (trace a)
     = loop_starts (trace b) + loop_stops (trace a) + offset)%nat) /\
   (starts p = [] ->
    starts p' = [] /\ forall e, res = Raised e -> is_Exception e = false)).

(** Sample data: a disk that takes no write. *)
Definition env_disk_full : environment :=
  {| disk_write := Some (CannotWrite "[Errno 28] No space left on device");
     send_message_fault := fun _ => None;
     send_photo_fault := fun _ => None;
     path_exists := fun _ => true;
     longest_sleep := 9000000000;
     stack_room := 100 |}.

(* ================================================================= *)
(** * Part II: properties *)
(* ================================================================= *)

(** ** Strings *)

Lemma lower_app (a b : string) : lower (a ++ b) = lower a ++ lower b.
Proof.
  induction a as [|c a IH]; simpl; [reflexivity | now rewrite IH].
Qed.

Lemma lower_ascii_idem (c : ascii) : lower_ascii (lower_ascii c) = lower_ascii c.
Proof.
  destruct c as [[] [] [] [] [] [] [] []]; reflexivity.
Qed.

Lemma lower_idem (s : string) : lower (lower s) = lower s.
Proof.
  induction s as [|c s IH]; simpl; [reflexivity|].
  now rewrite lower_ascii_idem, IH.
Qed.

Lemma lower_ascii_space (c : ascii) :
  Ascii.eqb (lower_ascii c) space = Ascii.eqb c space.
Proof.
  destruct c as [[] [] [] [] [] [] [] []]; reflexivity.
Qed.

Lemma has_space_lower (s : string) : has_space (lower s) = has_space s.
Proof.
  induction s as [|c s IH]; simpl; [reflexivity|].
  now rewrite lower_ascii_space, IH.
Qed.

Lemma split_no_space (s : string) : has_space s = false -> split space s = [s].
Proof.
  induction s as [|c s IH]; simpl; [reflexivity|].
  intros H. apply orb_false_iff in H as [Hc Hs].
  rewrite Hc, (IH Hs). reflexivity.
Qed.

(** ** The store *)

Lemma py_in_In (x : string) (l : list string) : py_in x l = true <-> In x l.
Proof.
  unfold py_in. rewrite existsb_exists. split.
  - intros [y [Hy E]]. apply String.eqb_eq in E. now subst.
  - intros H. exists x. split; [assumption | apply String.eqb_refl].
Qed.

Lemma py_in_not_In (x : string) (l : list string) : py_in x l = false <-> ~ In x l.
Proof.
  rewrite <- py_in_In. destruct (py_in x l); split; congruence.
Qed.

Lemma find_user_unknown (id : string) (us : list user) :
  ~ In id (known_ids us) -> find_user id us = None.
Proof.
  induction us as [|u us IH]; simpl; [reflexivity|].
  intros H. destruct (String.eqb_spec (str (chat_id u)) id) as [E|_].
  - exfalso. apply H. now left.
  - rewrite IH; [reflexivity | tauto].
Qed.

Lemma find_user_known (id : string) (us : list user) :
  In id (known_ids us) -> exists i u, find_user id us = Some (i, u).
Proof.
  induction us as [|u us IH]; simpl; [tauto|].
  intros H. destruct (String.eqb_spec (str (chat_id u)) id) as [E|N].
  - now exists 0%nat, u.
  - destruct IH as [i [v Hv]]; [tauto|]. rewrite Hv. now exists (S i), v.
Qed.

(** The record found is the one stored at the position found, and it
    answers to the handle. *)
Lemma find_user_sound (id : string) (us : list user) (i : nat) (u : user) :
  find_user id us = Some (i, u) ->
  nth_error us i = Some u /\ str (chat_id u) = id.
Proof.
  revert i. induction us as [|v us IH]; simpl; intros i H; [discriminate|].
  destruct (String.eqb_spec (str (chat_id v)) id) as [E|N].
  - injection H as <- <-. now split.
  - destruct (find_user id us) as [[j w]|]; simpl in H; [|discriminate].
    injection H as <- <-. simpl. now apply IH.
Qed.

Lemma find_user_last (id : string) (us : list user) (u : user) :
  ~ In id (known_ids us) -> str (chat_id u) = id ->
  find_user id (push us u) = Some (length us, u).
Proof.
  intros H E. unfold push. induction us as [|v us IH]; simpl.
  - now rewrite E, String.eqb_refl.
  - simpl in H. destruct (String.eqb_spec (str (chat_id v)) id) as [E'|_].
    + exfalso. apply H. now left.
    + rewrite IH; [reflexivity | tauto].
Qed.

Lemma records_of_unknown (id : handle) (us : list user) :
  ~ In (str id) (known_ids us) -> records_of id us = [].
Proof.
  induction us as [|u us IH]; simpl; [reflexivity|].
  intros H. destruct (String.eqb_spec (str (chat_id u)) (str id)) as [E|_].
  - exfalso. apply H. now left.
  - apply IH. tauto.
Qed.

Lemma users_save_users (env : environment) (self : notifier) :
  users (save_users env self) = users self.
Proof.
  unfold save_users. now destruct (disk_write env) as [[e|e]|].
Qed.

Lemma known_ids_push (us : list user) (u : user) :
  known_ids (push us u) = (known_ids us ++ [str (chat_id u)])%list.
Proof.
  unfold known_ids, push. now rewrite map_app.
Qed.

Lemma update_at_last (f : user -> user) (us : list user) (u : user) :
  update_at (length us) f (push us u) = push us (f u).
Proof.
  unfold push. induction us as [|v us IH]; simpl; [reflexivity | now rewrite IH].
Qed.

Lemma register_user_fresh (env : environment) (id : handle) (name : option string)
    (now : string) (self : notifier) :
  ~ In (str id) (known_ids (users self)) ->
  register_user env id name now self =
    (true, save_users env (with_users (push (users self) (new_user id name now)) self)).
Proof.
  intros H. unfold register_user.
  apply py_in_not_In in H. now rewrite H.
Qed.

Lemma register_user_known (env : environment) (id : handle) (name : option string)
    (now : string) (self : notifier) :
  In (str id) (known_ids (users self)) ->
  register_user env id name now self = (false, self).
Proof.
  intros H. unfold register_user.
  apply py_in_In in H. now rewrite H.
Qed.

Lemma register_user_true (env : environment) (id : handle) (name : option string)
    (now : string) (self s1 : notifier) :
  register_user env id name now self = (true, s1) ->
  ~ In (str id) (known_ids (users self)) /\
  users s1 = push (users self) (new_user id name now).
Proof.
  unfold register_user.
  destruct (py_in (str id) (known_ids (users self))) eqn:E; simpl; [discriminate|].
  intros H. injection H as <-. split.
  - now apply py_in_not_In.
  - now rewrite users_save_users.
Qed.

(** C4. Registering a handle the store does not know appends one record
    whose four flags are true and returns true; registering it again returns
    false and changes nothing, so the store holds exactly one record for the
    handle. *)
Theorem register_user_once (env : environment) (id : handle)
    (name name' : option string) (now now' : string) (self : notifier) :
  ~ In (str id) (known_ids (users self)) ->
  let record :=
    {| chat_id := id; username := name; registered_at := now;
       settings := {| price_alerts := true; signal_alerts := true;
                      news_alerts := true; eod_reports := true |} |} in
  let first := register_user env id name now self in
  let second := register_user env id name' now' (snd first) in
  fst first = true /\
  users (snd first) = (users self ++ [record])%list /\
  fst second = false /\
  snd second = snd first /\
  records_of id (users (snd second)) = [record].
Proof.
  intros H record first second.
  assert (F : first = (true, save_users env
                (with_users (push (users self) (new_user id name now)) self)))
    by now apply register_user_fresh.
  assert (U : users (snd first) = (users self ++ [record])%list)
    by (rewrite F; simpl; now rewrite users_save_users).
  assert (S : second = (false, snd first)).
  { apply register_user_known. rewrite U. unfold known_ids.
    rewrite map_app. apply in_or_app. right. now left. }
  rewrite S. simpl. repeat split; try assumption.
  - now rewrite F.
  - rewrite U. unfold records_of. rewrite filter_app.
    fold (records_of id (users self)). rewrite records_of_unknown by assumption.
    simpl. now rewrite String.eqb_refl.
Qed.

Lemma register_user_once_witness :
  let record :=
    {| chat_id := IntId 104; username := Some "dee";
       registered_at := "2024-03-02 08:30:00"; settings := default_settings |} in
  let first :=
    register_user env_ok (IntId 104) (Some "dee") "2024-03-02 08:30:00" with_three in
  let second :=
    register_user env_ok (IntId 104) None "2024-03-02 08:31:00" (snd first) in
  fst first = true /\
  users (snd first) = [ann; bob; cho; record] /\
  fst second = false /\
  snd second = snd first /\
  records_of (IntId 104) (users (snd second)) = [record].
Proof.
  apply (register_user_once env_ok (IntId 104) (Some "dee") None
           "2024-03-02 08:30:00" "2024-03-02 08:31:00" with_three).
  simpl. intros [H|[H|[H|[]]]]; discriminate H.
Defined.

(** C10. Handles are compared through [str]: once [register_user(chat_id)]
    has succeeded, registering the decimal string of [chat_id] returns false
    and changes nothing, and the lookups of [settings_command] and
    [handle_message] find the record just created, whether the sender comes
    as the integer or as its string. *)
Theorem handle_is_its_string (env : environment) (id : handle)
    (name : option string) (now : string) (self s1 : notifier) :
  register_user env id name now self = (true, s1) ->
  let as_text := StrId (str id) in
  let record := new_user id name now in
  (forall name' now', register_user env as_text name' now' s1 = (false, s1)) /\
  find_user (str id) (users s1) = Some (length (users self), record) /\
  find_user (str as_text) (users s1) = Some (length (users self), record) /\
  settings_command id s1 = emit (Reply (settings_message (settings record))) s1 /\
  settings_command as_text s1 = settings_command id s1 /\
  (forall message,
     handle_message env as_text message s1 = handle_message env id message s1) /\
  users (snd (handle_message env as_text "price off" s1)) =
    (users self ++ [with_settings (set_flag PriceAlerts false (settings record)) record])%list.
Proof.
  intros R as_text record.
  apply register_user_true in R as [Fresh U].
  assert (F : find_user (str id) (users s1) = Some (length (users self), record))
    by (rewrite U; now apply find_user_last).
  repeat split.
  - intros name' now'. apply register_user_known. simpl.
    rewrite U, known_ids_push. apply in_or_app. right. now left.
  - exact F.
  - exact F.
  - unfold settings_command. now rewrite F.
  - unfold handle_message. simpl str. rewrite F. simpl. unfold toggle. simpl.
    rewrite users_save_users. simpl. rewrite U. apply update_at_last.
Qed.

Lemma handle_is_its_string_witness :
  let s1 := snd (register_user env_ok (IntId 104) None "2024-03-02 08:30:00" with_three) in
  find_user "104" (users s1) =
    Some (3%nat, new_user (IntId 104) None "2024-03-02 08:30:00").
Proof.
  exact (proj1 (proj2
    (handle_is_its_string env_ok (IntId 104) None "2024-03-02 08:30:00" with_three
       (snd (register_user env_ok (IntId 104) None "2024-03-02 08:30:00" with_three))
       eq_refl))).
Defined.

(** C8. A free-text message or a [/settings] command from a handle that is
    not in the store is answered with the not-registered reply, which points
    to [/start], and nothing else happens: the users and the users file are
    as before and the reply is the only new entry of the trace. *)
Theorem unknown_handle_rejected (env : environment) (chat : handle)
    (message : string) (self : notifier) :
  ~ In (str chat) (known_ids (users self)) ->
  let told := "You are not registered. Use /start to register." in
  let after_text := handle_message env chat message self in
  let after_settings := settings_command chat self in
  fst after_text = Returns tt /\
  users (snd after_text) = users self /\
  users_file (snd after_text) = users_file self /\
  trace (snd after_text) = (trace self ++ [Reply told])%list /\
  users after_settings = users self /\
  users_file after_settings = users_file self /\
  trace after_settings = (trace self ++ [Reply told])%list.
Proof.
  intros H told after_text after_settings.
  apply find_user_unknown in H.
  unfold after_text, after_settings, handle_message, settings_command.
  rewrite H. simpl. repeat split.
Qed.

Lemma unknown_handle_rejected_witness :
  let after_text := handle_message env_ok (IntId 999) "price off" with_three in
  let after_settings := settings_command (IntId 999) with_three in
  fst after_text = Returns tt /\
  users (snd after_text) = [ann; bob; cho] /\
  users_file (snd after_text) = Missing /\
  trace (snd after_text) = [Reply "You are not registered. Use /start to register."] /\
  users after_settings = [ann; bob; cho] /\
  users_file after_settings = Missing /\
  trace after_settings = [Reply "You are not registered. Use /start to register."].
Proof.
  apply (unknown_handle_rejected env_ok (IntId 999) "price off" with_three).
  simpl. intros [H|[H|[H|[]]]]; discriminate H.
Defined.

(** ** Free-text replies *)

Lemma startswith_app (p rest : string) : startswith (p ++ rest) p = true.
Proof.
  unfold startswith. induction p as [|c p IH]; simpl.
  - now destruct rest.
  - destruct (ascii_dec c c) as [_|N]; [exact IH | now elim N].
Qed.

Lemma split_keyword (kw rest : string) :
  has_space kw = false ->
  split space (kw ++ " " ++ rest) = kw :: split space rest.
Proof.
  induction kw as [|c kw IH]; intros H; simpl in *; [reflexivity|].
  apply orb_false_iff in H as [Hc Hk].
  rewrite Hc, (IH Hk). reflexivity.
Qed.

Lemma keyword_no_space (f : flag) : has_space (keyword f) = false.
Proof. now destruct f. Qed.

(** The branch [handle_message] takes on a text that opens with a keyword
    and a space. *)
Lemma handle_message_branch (env : environment) (chat : handle) (self : notifier)
    (i : nat) (u : user) (f : flag) (message rest : string) :
  find_user (str chat) (users self) = Some (i, u) ->
  lower message = keyword f ++ " " ++ rest ->
  handle_message env chat message self = toggle env f i (lower message) self.
Proof.
  intros F E. unfold handle_message. rewrite F, E.
  destruct f; simpl keyword; cbv beta iota.
  - change ("price" ++ " " ++ rest) with ("price " ++ rest).
    now rewrite startswith_app.
  - change ("signal" ++ " " ++ rest) with ("signal " ++ rest).
    rewrite startswith_app.
    now replace (startswith ("signal " ++ rest) "price ") with false by now vm_compute.
  - change ("news" ++ " " ++ rest) with ("news " ++ rest).
    rewrite startswith_app.
    replace (startswith ("news " ++ rest) "price ") with false by now vm_compute.
    now replace (startswith ("news " ++ rest) "signal ") with false by now vm_compute.
  - change ("eod" ++ " " ++ rest) with ("eod " ++ rest).
    rewrite startswith_app.
    replace (startswith ("eod " ++ rest) "price ") with false by now vm_compute.
    replace (startswith ("eod " ++ rest) "signal ") with false by now vm_compute.
    now replace (startswith ("eod " ++ rest) "news ") with false by now vm_compute.
Qed.

Lemma get_set_flag (f g : flag) (value : bool) (p : preference_set) :
  get_flag g (set_flag f value p) =
    match f, g with
    | PriceAlerts, PriceAlerts | SignalAlerts, SignalAlerts
    | NewsAlerts, NewsAlerts | EodReports, EodReports => value
    | _, _ => get_flag g p
    end.
Proof. now destruct f, g. Qed.

Lemma update_at_same (f : user -> user) (us : list user) (i : nat) (u : user) :
  nth_error us i = Some u -> nth_error (update_at i f us) i = Some (f u).
Proof.
  revert i. induction us as [|v us IH]; intros [|i]; simpl; try discriminate.
  - now intros [= ->].
  - apply IH.
Qed.

Lemma update_at_other (f : user -> user) (us : list user) (i j : nat) :
  i <> j -> nth_error (update_at i f us) j = nth_error us j.
Proof.
  revert i j. induction us as [|v us IH]; intros [|i] [|j] H; simpl;
    try reflexivity; try congruence.
  apply IH. congruence.
Qed.

Lemma split_nonempty (sep : ascii) (s : string) : split sep s <> [].
Proof.
  destruct s as [|c s]; simpl; [discriminate|].
  destruct (Ascii.eqb c sep); [discriminate|].
  destruct (split sep s); discriminate.
Qed.

Lemma startswith_cut (kw s : string) :
  startswith s (kw ++ " ") = true -> exists rest, s = kw ++ " " ++ rest.
Proof.
  unfold startswith. revert s. induction kw as [|c kw IH]; intros s; simpl.
  - destruct s as [|b s]; cbn [prefix]; [intros H; discriminate H|].
    destruct (ascii_dec " "%char b) as [<-|_]; [|intros H; discriminate H].
    intros _. now exists s.
  - destruct s as [|b s]; cbn [prefix]; [intros H; discriminate H|].
    destruct (ascii_dec c b) as [<-|_]; [|intros H; discriminate H].
    intros H. destruct (IH s H) as [rest ->]. now exists rest.
Qed.

(** The index [1] of [text.split(' ')[1]] is always there: no branch of
    [handle_message] raises. *)
Lemma handle_message_returns (env : environment) (chat : handle) (message : string)
    (self : notifier) :
  fst (handle_message env chat message self) = Returns tt.
Proof.
  assert (T : forall f i text,
            startswith text (keyword f ++ " ") = true ->
            fst (toggle env f i text self) = Returns tt).
  { intros f i text H. apply startswith_cut in H as [rest ->].
    unfold toggle. rewrite split_keyword by apply keyword_no_space.
    simpl nth_error. pose proof (split_nonempty space rest) as N.
    destruct (split space rest); [contradiction | reflexivity]. }
  unfold handle_message.
  destruct (find_user (str chat) (users self)) as [[i u]|]; [|reflexivity].
  destruct (startswith (lower message) "price ") eqn:P;
    [exact (T PriceAlerts i _ P)|].
  destruct (startswith (lower message) "signal ") eqn:S;
    [exact (T SignalAlerts i _ S)|].
  destruct (startswith (lower message) "news ") eqn:N;
    [exact (T NewsAlerts i _ N)|].
  destruct (startswith (lower message) "eod ") eqn:D;
    [exact (T EodReports i _ D)|].
  reflexivity.
Qed.

(** C3, as the code has it.  From a registered sender, a text made of a
    category word (price, signal, news, eod, in any case), one space and a
    token without spaces writes that flag in the sender's record, true when
    the token is [on] in any case and false for every other token, writes
    the store and acknowledges; the other records and the other flags are
    untouched.  A text that does not open with one of the four words and a
    space gets the generic reply and changes nothing. *)
Theorem free_text_sets_flag (env : environment) (chat : handle) (self : notifier)
    (i : nat) (u : user) :
  find_user (str chat) (users self) = Some (i, u) ->
  (forall (f : flag) (category token : string),
     lower category = keyword f ->
     has_space token = false ->
     let value := String.eqb (lower token) "on" in
     let changed :=
       with_users
         (update_at i (fun v => with_settings (set_flag f value (settings v)) v)
            (users self)) self in
     handle_message env chat (category ++ " " ++ token) self =
       (Returns tt, emit (Reply (ack f value)) (save_users env changed)) /\
     nth_error (users changed) i = Some (with_settings (set_flag f value (settings u)) u) /\
     (forall j, j <> i -> nth_error (users changed) j = nth_error (users self) j) /\
     (forall g, g <> f ->
        get_flag g (set_flag f value (settings u)) = get_flag g (settings u)) /\
     get_flag f (set_flag f value (settings u)) = value) /\
  (forall message,
     (forall f, startswith (lower message) (keyword f ++ " ") = false) ->
     handle_message env chat message self =
       (Returns tt, emit (Reply dont_understand) self)).
Proof.
  intros F. split.
  - intros f category token Hc Ht value changed.
    assert (E : lower (category ++ " " ++ token) = keyword f ++ " " ++ lower token)
      by (rewrite !lower_app, Hc; reflexivity).
    repeat split.
    + rewrite (handle_message_branch env chat self i u f _ (lower token) F E).
      unfold toggle. rewrite E, split_keyword by apply keyword_no_space.
      rewrite split_no_space by now rewrite has_space_lower.
      simpl nth_error. cbv iota. rewrite lower_idem. reflexivity.
    + apply find_user_sound in F as [N _].
      exact (update_at_same
               (fun v => with_settings (set_flag f value (settings v)) v) _ _ _ N).
    + intros j Hj. apply update_at_other. congruence.
    + intros g Hg. rewrite get_set_flag. destruct f, g; congruence.
    + rewrite get_set_flag. now destruct f.
  - intros message H. unfold handle_message. rewrite F.
    assert (P := H PriceAlerts). assert (S := H SignalAlerts).
    assert (N := H NewsAlerts). assert (D := H EodReports).
    change (startswith (lower message) "price " = false) in P.
    change (startswith (lower message) "signal " = false) in S.
    change (startswith (lower message) "news " = false) in N.
    change (startswith (lower message) "eod " = false) in D.
    now rewrite P, S, N, D.
Qed.

Lemma free_text_sets_flag_witness :
  handle_message env_ok (IntId 102) ("Signal" ++ " " ++ "OFF") with_three =
    (Returns tt,
     emit (Reply "Signal alerts turned OFF")
       (save_users env_ok
          (with_users
             [ann;
              subscriber 102
                {| price_alerts := true; signal_alerts := false;
                   news_alerts := true; eod_reports := true |};
              cho] with_three))).
Proof.
  exact (proj1 (proj1
    (free_text_sets_flag env_ok (IntId 102) with_three 1 bob eq_refl)
    SignalAlerts "Signal" "OFF" eq_refl eq_refl)).
Defined.

(** C3, where it fails: a known category with a token that is neither [on]
    nor [off] is not turned down.  It is read as [off]: the flag goes to
    false, the store is written and the reply is the acknowledgement. *)
Lemma malformed_token_is_off :
  let after := snd (handle_message env_ok (IntId 101) "price maybe" with_three) in
  lower "maybe" <> "on" /\
  lower "maybe" <> "off" /\
  replies (trace after) = ["Price alerts turned OFF"] /\
  replies (trace after) <> [dont_understand] /\
  option_map (fun v => price_alerts (settings v)) (nth_error (users with_three) 0) = Some true /\
  option_map (fun v => price_alerts (settings v)) (nth_error (users after) 0) = Some false /\
  users after <> users with_three /\
  users_file after = Stored (users after).
Proof.
  vm_compute. repeat split; discriminate.
Qed.

(** ** Routing *)

Lemma select_recipients_from (c : category) (us acc : list user) :
  fold_left
    (fun recipients user =>
       let s := settings user in
       if String.eqb (type_name c) "price" && price_alerts s
       then push recipients user
       else if String.eqb (type_name c) "signal" && signal_alerts s
       then push recipients user
       else if String.eqb (type_name c) "news" && news_alerts s
       then push recipients user
       else recipients)
    us acc
  = (acc ++ filter (fun u => get_flag (category_flag c) (settings u)) us)%list.
Proof.
  revert acc. induction us as [|u us IH]; intros acc; simpl.
  - now rewrite app_nil_r.
  - rewrite IH. destruct c; simpl;
      match goal with
      | |- context [if ?b then _ else _] => destruct b
      end; unfold push; now rewrite <- ?app_assoc.
Qed.

Lemma users_emit (e : event) (self : notifier) : users (emit e self) = users self.
Proof. reflexivity. Qed.

Lemma users_file_emit (e : event) (self : notifier) :
  users_file (emit e self) = users_file self.
Proof. reflexivity. Qed.

Lemma trace_emit (e : event) (self : notifier) :
  trace (emit e self) = (trace self ++ [e])%list.
Proof. reflexivity. Qed.

(** A send touches the trace only. *)
Lemma notify_one_store (env : environment) (text : string) (chart : option string)
    (u : user) (self : notifier) :
  users (notify_one env text chart u self) = users self /\
  users_file (notify_one env text chart u self) = users_file self.
Proof.
  unfold notify_one.
  destruct (send_message_fault env (chat_id u)); [now split|].
  destruct chart as [path|]; [|now split].
  destruct (path_exists env path); [|now split].
  destruct (send_photo_fault env (chat_id u)); now split.
Qed.

Lemma notify_all_store (env : environment) (text : string) (chart : option string)
    (l : list user) (self : notifier) :
  users (fold_left (fun self u => notify_one env text chart u self) l self) = users self /\
  users_file (fold_left (fun self u => notify_one env text chart u self) l self)
    = users_file self.
Proof.
  revert self. induction l as [|u l IH]; intros self; simpl; [now split|].
  destruct (IH (notify_one env text chart u self)) as [A B].
  destruct (notify_one_store env text chart u self) as [C D].
  split; congruence.
Qed.

(** C5. For each of the three categories the routing loop of
    [send_notification] keeps exactly the subscribers whose flag for the
    category (price to price_alerts, signal to signal_alerts, news to
    news_alerts) is true, in the order of the store, and sending the
    notification leaves the store as it was. *)
Theorem routing_is_filter (env : environment) (c : category) (us : list user) :
  select_recipients (type_name c) us =
    filter (fun u => get_flag (category_flag c) (settings u)) us
  /\
  (forall (n : notification) (self : notifier),
     users (snd (send_notification env n self)) = users self /\
     users_file (snd (send_notification env n self)) = users_file self).
Proof.
  split.
  - unfold select_recipients. now rewrite select_recipients_from.
  - intros n self. unfold send_notification. simpl. apply notify_all_store.
Qed.

(** ** Dispatch *)

Lemma messaged_app (a b : list event) :
  messaged (a ++ b) = (messaged a ++ messaged b)%list.
Proof. apply flat_map_app. Qed.

Lemma errors_app (a b : list event) : errors (a ++ b) = (errors a ++ errors b)%list.
Proof. apply flat_map_app. Qed.

Lemma messaged_delivered (env : environment) (text : string) (chart caption : option string)
    (l : list user) :
  messaged (flat_map (delivered env text chart caption) l) = map chat_id l.
Proof.
  induction l as [|u l IH]; simpl; [reflexivity|].
  unfold messaged in *. rewrite flat_map_app, IH.
  destruct chart as [path|]; [destruct (path_exists env path)|]; reflexivity.
Qed.

Lemma errors_delivered (env : environment) (text : string) (chart caption : option string)
    (l : list user) :
  errors (flat_map (delivered env text chart caption) l) = [].
Proof.
  induction l as [|u l IH]; simpl; [reflexivity|].
  unfold errors in *. rewrite flat_map_app, IH.
  destruct chart as [path|]; [destruct (path_exists env path)|]; reflexivity.
Qed.

Ltac served_case env u chart :=
  destruct chart as [?path|];
  [ destruct (path_exists env path) | ];
  simpl; unfold push; rewrite <- ?app_assoc; reflexivity.

Lemma notify_one_served (env : environment) (text : string) (chart : option string)
    (u : user) (self : notifier) :
  send_message_fault env (chat_id u) = None ->
  send_photo_fault env (chat_id u) = None ->
  trace (notify_one env text chart u self) =
    (trace self ++ delivered env text chart None u)%list.
Proof.
  intros M P. unfold notify_one, delivered. rewrite M, P.
  served_case env u chart.
Qed.

Lemma report_one_served (env : environment) (text : string) (rd : report_data)
    (u : user) (self : notifier) :
  send_message_fault env (chat_id u) = None ->
  send_photo_fault env (chat_id u) = None ->
  trace (report_one env text rd u self) =
    (trace self ++ delivered env text (rd_chart_path rd) (Some "EOD Chart") u)%list.
Proof.
  intros M P. unfold report_one, delivered. rewrite M, P.
  served_case env u (rd_chart_path rd).
Qed.

Lemma notify_all_served (env : environment) (text : string) (chart : option string)
    (l : list user) (self : notifier) :
  (forall u, In u l ->
     send_message_fault env (chat_id u) = None /\
     send_photo_fault env (chat_id u) = None) ->
  trace (fold_left (fun self u => notify_one env text chart u self) l self) =
    (trace self ++ flat_map (delivered env text chart None) l)%list.
Proof.
  revert self. induction l as [|u l IH]; intros self H; simpl.
  - now rewrite app_nil_r.
  - rewrite IH by (intros v Hv; apply H; now right).
    destruct (H u (or_introl eq_refl)) as [M P].
    rewrite (notify_one_served env text chart u self M P).
    now rewrite <- app_assoc.
Qed.

Lemma report_all_served (env : environment) (text : string) (rd : report_data)
    (l : list user) (self : notifier) :
  (forall u, In u l ->
     send_message_fault env (chat_id u) = None /\
     send_photo_fault env (chat_id u) = None) ->
  trace (fold_left (fun self u => report_one env text rd u self) l self) =
    (trace self ++
     flat_map (delivered env text (rd_chart_path rd) (Some "EOD Chart")) l)%list.
Proof.
  revert self. induction l as [|u l IH]; intros self H; simpl.
  - now rewrite app_nil_r.
  - rewrite IH by (intros v Hv; apply H; now right).
    destruct (H u (or_introl eq_refl)) as [M P].
    rewrite (report_one_served env text rd u self M P).
    now rewrite <- app_assoc.
Qed.

(** C2, as the code has it.  When the transport fails for one recipient [k]
    and serves the others, both fan-out loops go through the whole list: the
    recipients before and after [k] get their sends, in order, and the one
    error line names [k] and the cause.  Nothing is handed back: the call
    evaluates to [None], and the trace is the only account of the batch. *)
Theorem one_failure_is_isolated (env : environment) (before after : list user)
    (k : user) (cause : string) :
  send_message_fault env (chat_id k) = Some cause ->
  (forall u, In u (before ++ after) ->
     send_message_fault env (chat_id u) = None /\
     send_photo_fault env (chat_id u) = None) ->
  (forall (n : notification) (self : notifier),
     select_recipients (n_type n) (users self) = (before ++ k :: after)%list ->
     let text := "🔔 " ++ n_title n ++ nl ++ nl ++ n_message n in
     let got := flat_map (delivered env text (n_chart_path n) None) in
     let line := "Error sending notification to " ++ str (chat_id k) ++ ": " ++ cause in
     let batch := (got before ++ [LogError line] ++ got after)%list in
     fst (send_notification env n self) = NoneValue /\
     trace (snd (send_notification env n self)) = (trace self ++ batch)%list /\
     messaged batch = map chat_id (before ++ after) /\
     errors batch = [line])
  /\
  (forall (rd : report_data) (col : reporting) (html text : string) (self : notifier),
     rendered col = Gives (Some html) ->
     formatted col = Gives text ->
     select_eod_recipients (users self) = (before ++ k :: after)%list ->
     let got := flat_map (delivered env text (rd_chart_path rd) (Some "EOD Chart")) in
     let line := "Error sending EOD report to " ++ str (chat_id k) ++ ": " ++ cause in
     let batch := (got before ++ [LogError line] ++ got after)%list in
     fst (send_eod_report env (Some rd) col self) = Gives NoneValue /\
     trace (snd (send_eod_report env (Some rd) col self)) = (trace self ++ batch)%list /\
     messaged batch = map chat_id (before ++ after) /\
     errors batch = [line]).
Proof.
  intros K Others.
  assert (B : forall u, In u before ->
                send_message_fault env (chat_id u) = None /\
                send_photo_fault env (chat_id u) = None)
    by (intros u Hu; apply Others, in_or_app; now left).
  assert (A : forall u, In u after ->
                send_message_fault env (chat_id u) = None /\
                send_photo_fault env (chat_id u) = None)
    by (intros u Hu; apply Others, in_or_app; now right).
  split.
  - intros n self R text got line batch. repeat split.
    + unfold send_notification. simpl. rewrite R, fold_left_app. simpl.
      rewrite notify_all_served by exact A.
      unfold notify_one at 1. rewrite K, trace_emit.
      rewrite notify_all_served by exact B.
      unfold batch, got, text, line. now rewrite <- !app_assoc.
    + unfold batch, got. rewrite !messaged_app, !messaged_delivered.
      simpl. now rewrite map_app.
    + unfold batch, got. rewrite !errors_app, !errors_delivered. reflexivity.
  - intros rd col html text self Hh Hf R got line batch. repeat split.
    + unfold send_eod_report. now rewrite Hh, Hf.
    + unfold send_eod_report. rewrite Hh, Hf. simpl. rewrite R, fold_left_app. simpl.
      rewrite report_all_served by exact A.
      unfold report_one at 1. rewrite K, trace_emit.
      rewrite report_all_served by exact B.
      unfold batch, got, line. now rewrite <- !app_assoc.
    + unfold batch, got. rewrite !messaged_app, !messaged_delivered.
      simpl. now rewrite map_app.
    + unfold batch, got. rewrite !errors_app, !errors_delivered. reflexivity.
Qed.

Lemma one_failure_is_isolated_witness :
  trace (snd (send_notification env_bob_blocked price_alert with_three)) =
    [ SendMessage (IntId 101)
        ("🔔 Price Alert" ++ nl ++ nl ++ "XAU/USD moved 1.2% in the last hour");
      SendPhoto (IntId 101) "/app/charts/price_alert.png" None;
      LogError "Error sending notification to 102: Forbidden: bot was blocked by the user";
      SendMessage (IntId 103)
        ("🔔 Price Alert" ++ nl ++ nl ++ "XAU/USD moved 1.2% in the last hour");
      SendPhoto (IntId 103) "/app/charts/price_alert.png" None ].
Proof.
  assert (K : send_message_fault env_bob_blocked (chat_id bob) = Some blocked)
    by reflexivity.
  assert (O : forall u, In u ([ann] ++ [cho]) ->
                send_message_fault env_bob_blocked (chat_id u) = None /\
                send_photo_fault env_bob_blocked (chat_id u) = None)
    by (intros u [<-|[<-|[]]]; split; reflexivity).
  exact (proj1 (proj2
    (proj1 (one_failure_is_isolated env_bob_blocked [ann] [cho] bob blocked K O)
       price_alert with_three eq_refl))).
Defined.

(** C2, where it fails: with three recipients and the transport failing for
    the second, the two others are served and the failure is logged, but no
    [DeliveryReport] comes back, from either fan-out: the call evaluates to
    [None]. *)
Lemma no_delivery_report :
  let expected :=
    Report {| success_count := 2; failures := [(IntId 102, blocked)] |} in
  let alert := send_notification env_bob_blocked price_alert with_three in
  let digest :=
    send_eod_report env_bob_blocked (Some {| rd_chart_path := None |}) eod_ready
      with_three in
  map chat_id (select_recipients (n_type price_alert) (users with_three))
    = [IntId 101; IntId 102; IntId 103] /\
  messaged (trace (snd alert)) = [IntId 101; IntId 103] /\
  errors (trace (snd alert)) =
    ["Error sending notification to 102: Forbidden: bot was blocked by the user"] /\
  fst alert = NoneValue /\
  fst alert <> expected /\
  fst digest = Gives NoneValue /\
  fst digest <> Gives expected.
Proof.
  vm_compute. repeat split; discriminate.
Qed.

(** ** Loading the store *)

(** C7, as the code has it.  [load_users] answers the empty registry when
    the file is missing; when the file is there and is not JSON it logs one
    error line and answers the empty registry, and the [JSONDecodeError]
    goes no further. *)
Theorem load_users_recovers (self : notifier) :
  load_users (with_users_file Missing self)
    = (Returns [], with_users_file Missing self) /\
  load_users (with_users_file NotJson self)
    = (Returns [],
       emit (LogError "Error decoding users file, creating new one")
         (with_users_file NotJson self)).
Proof. split; reflexivity. Qed.

(** C7, where it fails: a failure to read the file is not caught.  When
    [open] is refused, or the bytes are not text, the exception leaves
    [load_users], and [main], which builds the notifier outside its [try],
    ends on it. *)
Lemma load_users_read_failure :
  let refused := "[Errno 13] Permission denied: '/app/data/telegram_users.json'" in
  let garbled := "'utf-8' codec can't decode byte 0xff in position 0: invalid start byte" in
  fst (load_users (with_users_file (Unreadable refused) blank))
    = Raises (Error OSError refused) /\
  fst (load_users (with_users_file (NotText garbled) blank))
    = Raises (Error UnicodeDecodeError garbled) /\
  (forall us, fst (load_users (with_users_file (Unreadable refused) blank))
                <> Returns us) /\
  main env_ok (Some "123:abc") 600 "16:00" (Unreadable refused) [] calm
    = Some (Uncaught (Error OSError refused), []).
Proof.
  repeat split. intros us. discriminate.
Qed.

(** ** What the parts of a cycle add to the trace *)

Lemma extends_refl (a : notifier) : extends a a [].
Proof. unfold extends. now rewrite app_nil_r. Qed.

Lemma extends_emit (a : notifier) (e : event) : extends a (emit e a) [e].
Proof. unfold extends. now simpl. Qed.

Lemma extends_trans (a b c : notifier) (x y : list event) :
  extends a b x -> extends b c y -> extends a c (x ++ y).
Proof.
  intros (U1 & F1 & I1 & T1) (U2 & F2 & I2 & T2). unfold extends.
  rewrite U2, F2, I2, T2, T1, app_assoc. now repeat split.
Qed.

Lemma background_refl (a : notifier) : adds_background a a.
Proof. exists []. split; [apply extends_refl | reflexivity]. Qed.

Lemma background_emit (a : notifier) (e : event) :
  background e = true -> adds_background a (emit e a).
Proof.
  intros H. exists [e]. split; [apply extends_emit | simpl; now rewrite H].
Qed.

Lemma background_trans (a b c : notifier) :
  adds_background a b -> adds_background b c -> adds_background a c.
Proof.
  intros (x & Ex & Bx) (y & Ey & By). exists (x ++ y)%list. split.
  - eapply extends_trans; eassumption.
  - now rewrite forallb_app, Bx, By.
Qed.

Lemma background_fold {A : Type} (f : notifier -> A -> notifier) (l : list A) :
  (forall a x, adds_background a (f a x)) ->
  forall a, adds_background a (fold_left f l a).
Proof.
  intros H. induction l as [|x l IH]; intros a; simpl.
  - apply background_refl.
  - eapply background_trans; [apply H | apply IH].
Qed.

Ltac emits :=
  repeat first
    [ apply background_refl
    | apply background_emit; reflexivity
    | eapply background_trans; [| apply background_emit; reflexivity] ].

Lemma notify_one_background (env : environment) (text : string)
    (chart : option string) (u : user) (a : notifier) :
  adds_background a (notify_one env text chart u a).
Proof.
  unfold notify_one.
  destruct (send_message_fault env (chat_id u)); [emits|].
  destruct chart as [path|]; [|emits].
  destruct (path_exists env path); [|emits].
  destruct (send_photo_fault env (chat_id u)); emits.
Qed.

Lemma report_one_background (env : environment) (text : string) (rd : report_data)
    (u : user) (a : notifier) :
  adds_background a (report_one env text rd u a).
Proof.
  unfold report_one.
  destruct (send_message_fault env (chat_id u)); [emits|].
  destruct (rd_chart_path rd) as [path|]; [|emits].
  destruct (path_exists env path); [|emits].
  destruct (send_photo_fault env (chat_id u)); emits.
Qed.

Lemma send_notification_background (env : environment) (n : notification)
    (a : notifier) :
  adds_background a (snd (send_notification env n a)).
Proof.
  unfold send_notification. simpl.
  apply background_fold. intros b u. apply notify_one_background.
Qed.

Lemma send_eod_report_background (env : environment) (rd : option report_data)
    (col : reporting) (a : notifier) :
  adds_background a (snd (send_eod_report env rd col a)).
Proof.
  unfold send_eod_report.
  destruct rd as [rd|]; [|simpl; emits].
  destruct (rendered col) as [[html|]|e]; simpl; [|emits|emits].
  destruct (formatted col) as [text|e]; simpl; [|emits].
  apply background_fold. intros b u. apply report_one_background.
Qed.

Lemma run_check_cycle_background (env : environment)
    (checked : reply (list notification)) (a : notifier) :
  adds_background a (run_check_cycle env checked a).
Proof.
  unfold run_check_cycle.
  destruct checked as [[|n ns]|e]; [emits | | emits].
  eapply background_trans; [| apply background_fold;
                               intros b x; apply send_notification_background].
  emits.
Qed.

(** The end-of-day report opens with its line; the rest is background. *)
Lemma generate_and_send_eod_report_trace (env : environment) (col : reporting)
    (a : notifier) :
  exists extra,
    extends a (generate_and_send_eod_report env col a) (LogInfo digest_line :: extra)
    /\ forallb background extra = true.
Proof.
  assert (G : forall b, adds_background (emit (LogInfo digest_line) a) b ->
                exists extra, extends a b (LogInfo digest_line :: extra)
                              /\ forallb background extra = true).
  { intros b (extra & E & B). exists extra. split; [|exact B].
    exact (extends_trans _ _ _ _ _ (extends_emit a (LogInfo digest_line)) E). }
  unfold generate_and_send_eod_report. apply G.
  destruct (generated col) as [v|e]; [|emits].
  destruct (truth v); [|emits].
  pose proof (send_eod_report_background env (data_of v) col
                (emit (LogInfo "EOD report generated") (emit (LogInfo digest_line) a)))
    as S.
  destruct (send_eod_report env (data_of v) col _) as [[w|e] b]; simpl in S.
  - eapply background_trans; [|exact S]. emits.
  - eapply background_trans; [|apply background_emit; reflexivity].
    eapply background_trans; [|exact S]. emits.
Qed.

(** ** What a trace shows *)

Lemma digests_app (a b : list event) : digests (a ++ b) = (digests a + digests b)%nat.
Proof. unfold digests. now rewrite filter_app, length_app. Qed.

Lemma sleeps_app (a b : list event) : sleeps (a ++ b) = (sleeps a ++ sleeps b)%list.
Proof. apply flat_map_app. Qed.

Lemma loop_starts_app (a b : list event) :
  loop_starts (a ++ b) = (loop_starts a + loop_starts b)%nat.
Proof. unfold loop_starts. now rewrite filter_app, length_app. Qed.

Lemma background_shows_nothing (extra : list event) :
  forallb background extra = true ->
  digests extra = 0%nat /\ sleeps extra = [] /\ loop_starts extra = 0%nat.
Proof.
  induction extra as [|e extra IH]; intros H; [now repeat split|].
  simpl in H. apply andb_true_iff in H as [He Hx].
  destruct (IH Hx) as (D & S & L).
  change (e :: extra) with ([e] ++ extra)%list.
  rewrite digests_app, sleeps_app, loop_starts_app, D, S, L.
  destruct e; try discriminate He; repeat split.
  unfold digests. simpl in *. apply negb_true_iff in He. now rewrite He.
Qed.

(** ** One pass of the loop *)

(** A length in range is slept, unless something cuts the sleep short. *)
Lemma sleep_runs (env : environment) (seconds : Z) (wake : option exn)
    (a : notifier) :
  sleepable env seconds ->
  sleep env seconds wake a =
    match wake with
    | Some e => (Raises e, a)
    | None => (Returns tt, emit (Sleep seconds) a)
    end.
Proof.
  intros [[Lo Hi] Room]. unfold sleep.
  replace (seconds <? - sleep_max)%Z with false
    by (symmetry; apply Z.ltb_ge; unfold sleep_max in *; lia).
  replace (sleep_max <? seconds)%Z with false by (symmetry; apply Z.ltb_ge; lia).
  replace (seconds <? 0)%Z with false by (symmetry; apply Z.ltb_ge; lia).
  replace (longest_sleep env <? seconds)%Z with false
    by (symmetry; apply Z.ltb_ge; lia).
  reflexivity.
Qed.


(** Up to its sleep, a pass adds background events and, when the report is
    due, one run of the end-of-day report; it moves the watermark to the
    current date exactly when the report is due. *)
Lemma iteration_trace (env : environment) (thr : string) (c : cycle)
    (last : option date) (a : notifier) :
  let due := eod_due thr last (now c) in
  exists mid extra,
    extends a mid extra /\
    digests extra = (if due then 1 else 0)%nat /\
    sleeps extra = [] /\
    loop_starts extra = 0%nat /\
    iteration env thr c last a =
      match sleep env (check_interval a) (wake c) mid with
      | (Returns _, b) => (Returns (if due then Some (today (now c)) else last), b)
      | (Raises e, b) => (Raises e, b)
      end.
Proof.
  intros due. unfold iteration. fold due.
  destruct (run_check_cycle_background env (checked c) a) as (x1 & E1 & B1).
  destruct (background_shows_nothing x1 B1) as (D1 & S1 & L1).
  set (a1 := run_check_cycle env (checked c) a) in *.
  destruct due.
  - destruct (generate_and_send_eod_report_trace env (report c) a1) as (x2 & E2 & B2).
    destruct (background_shows_nothing x2 B2) as (D2 & S2 & L2).
    set (a2 := generate_and_send_eod_report env (report c) a1) in *.
    set (line := LogInfo ("Sleeping for " ++ str_Z (check_interval a2) ++ " seconds...")).
    exists (emit line a2), (x1 ++ (LogInfo digest_line :: x2) ++ [line])%list.
    assert (I : check_interval a2 = check_interval a).
    { destruct E1 as (_ & _ & I1 & _), E2 as (_ & _ & I2 & _). congruence. }
    repeat split.
    + destruct E1 as (U1 & _), E2 as (U2 & _). simpl. congruence.
    + destruct E1 as (_ & F1 & _), E2 as (_ & F2 & _). simpl. congruence.
    + exact I.
    + destruct E1 as (_ & _ & _ & T1), E2 as (_ & _ & _ & T2).
      simpl. unfold push. rewrite T2, T1. now rewrite <- !app_assoc.
    + change (LogInfo digest_line :: x2) with ([LogInfo digest_line] ++ x2)%list.
      rewrite !digests_app, D1, D2. reflexivity.
    + change (LogInfo digest_line :: x2) with ([LogInfo digest_line] ++ x2)%list.
      rewrite !sleeps_app, S1, S2. reflexivity.
    + change (LogInfo digest_line :: x2) with ([LogInfo digest_line] ++ x2)%list.
      rewrite !loop_starts_app, L1, L2. reflexivity.
    + simpl check_interval. rewrite I.
      now destruct (sleep env (check_interval a) (wake c) (emit line a2)) as [[[]|e] b].
  - set (line := LogInfo ("Sleeping for " ++ str_Z (check_interval a1) ++ " seconds...")).
    exists (emit line a1), (x1 ++ [line])%list.
    assert (I : check_interval a1 = check_interval a) by apply E1.
    repeat split.
    + destruct E1 as (U1 & _). simpl. congruence.
    + destruct E1 as (_ & F1 & _). simpl. congruence.
    + exact I.
    + destruct E1 as (_ & _ & _ & T1). simpl. unfold push. rewrite T1.
      now rewrite <- app_assoc.
    + rewrite digests_app, D1. reflexivity.
    + rewrite sleeps_app, S1. reflexivity.
    + rewrite loop_starts_app, L1. reflexivity.
    + simpl check_interval. rewrite I.
      now destruct (sleep env (check_interval a) (wake c) (emit line a1)) as [[[]|e] b].
Qed.

(** A pass whose sleep runs its course. *)
Lemma iteration_completes (env : environment) (thr : string) (c : cycle)
    (last : option date) (a : notifier) :
  quiet c -> sleepable env (check_interval a) ->
  let due := eod_due thr last (now c) in
  exists b,
    iteration env thr c last a = (Returns (if due then Some (today (now c)) else last), b) /\
    users b = users a /\
    check_interval b = check_interval a /\
    digests (trace b) = (digests (trace a) + (if due then 1 else 0))%nat /\
    sleeps (trace b) = (sleeps (trace a) ++ [check_interval a])%list /\
    loop_starts (trace b) = loop_starts (trace a).
Proof.
  intros Q I due.
  destruct (iteration_trace env thr c last a) as (mid & extra & E & D & S & L & R).
  fold due in D, R. destruct E as (U & _ & C & T).
  rewrite (sleep_runs env _ _ _ I), Q in R.
  exists (emit (Sleep (check_interval a)) mid). repeat split; simpl; try assumption.
  - unfold push. rewrite T, !digests_app, D.
    change (digests [Sleep (check_interval a)]) with 0%nat. lia.
  - unfold push. rewrite T, !sleeps_app, S, app_nil_r. reflexivity.
  - unfold push. rewrite T, !loop_starts_app, L.
    change (loop_starts [Sleep (check_interval a)]) with 0%nat. lia.
Qed.

(** A pass whose sleep is cut short. *)
Lemma iteration_raises (env : environment) (thr : string) (c : cycle)
    (last : option date) (a : notifier) (e : exn) :
  wake c = Some e -> sleepable env (check_interval a) ->
  exists b,
    iteration env thr c last a = (Raises e, b) /\
    users b = users a /\
    check_interval b = check_interval a /\
    sleeps (trace b) = sleeps (trace a) /\
    loop_starts (trace b) = loop_starts (trace a).
Proof.
  intros W I.
  destruct (iteration_trace env thr c last a) as (mid & extra & E & D & S & L & R).
  destruct E as (U & _ & C & T).
  rewrite (sleep_runs env _ _ _ I), W in R.
  exists mid. repeat split; try assumption.
  - rewrite T, sleeps_app, S. now rewrite app_nil_r.
  - rewrite T, loop_starts_app, L. lia.
Qed.

(** ** The loop on cycles that run their course *)

Lemma run_monitoring_eq (env : environment) (room : nat) (thr : string)
    (cs : list cycle) (p : polling) (a : notifier) :
  run_monitoring_nested env room thr cs p a =
    let a1 :=
      emit (LogInfo ("Starting continuous monitoring every "
                       ++ str_Z (check_interval a) ++ " seconds")) a in
    let a2 := emit (LogInfo ("EOD report time: " ++ thr)) a1 in
    match start_polling p a2 with
    | (Raises e, p, b) => (Raised e, cs, p, b)
    | (Returns _, p, b) =>
        monitoring_loop env thr (restart env room thr) cs None p b
    end.
Proof. destruct cs; reflexivity. Qed.

Lemma monitoring_loop_quiet (env : environment) (thr : string)
    (again : list cycle -> polling -> notifier -> run * list cycle * polling * notifier)
    (cs : list cycle) :
  forall (last : option date) (p : polling) (a : notifier),
    Forall quiet cs -> sleepable env (check_interval a) ->
    exists b,
      monitoring_loop env thr again cs last p a = (Pending, [], p, b) /\
      users b = users a /\
      check_interval b = check_interval a /\
      digests (trace b) = (digests (trace a) + due_count thr last cs)%nat.
Proof.
  induction cs as [|c cs IH]; intros last p a Q I; simpl.
  - exists a. repeat split. lia.
  - apply Forall_cons_iff in Q as [Qc Qs].
    destruct (iteration_completes env thr c last a Qc I) as (b & R & U & C & D & _).
    rewrite R.
    destruct (IH (if eod_due thr last (now c) then Some (today (now c)) else last)
                p b Qs) as (b' & R' & U' & C' & D'); [now rewrite C|].
    exists b'. rewrite R'. repeat split; try congruence.
    rewrite D', D. destruct (eod_due thr last (now c)); lia.
Qed.

Lemma digests_startup (thr : string) (a : notifier) :
  digests
    (trace
       (emit (LogInfo "Bot started polling")
          (emit StartPolling
             (emit (LogInfo ("EOD report time: " ++ thr))
                (emit (LogInfo ("Starting continuous monitoring every "
                                  ++ str_Z (check_interval a) ++ " seconds")) a)))))
  = digests (trace a).
Proof.
  rewrite !trace_emit, !digests_app.
  change (digests [LogInfo "Bot started polling"]) with 0%nat.
  change (digests [StartPolling]) with 0%nat.
  change (digests [LogInfo ("EOD report time: " ++ thr)]) with 0%nat.
  change (digests [LogInfo ("Starting continuous monitoring every "
                              ++ str_Z (check_interval a) ++ " seconds")]) with 0%nat.
  lia.
Qed.

(** A run whose polling starts and whose cycles all run their course is
    still in its loop when the cycles end, and has run the end-of-day report
    [due_count] times. *)
Lemma run_monitoring_quiet (env : environment) (thr : string) (cs : list cycle)
    (p : polling) (a : notifier) :
  hd None (starts p) = None -> Forall quiet cs -> sleepable env (check_interval a) ->
  fst (fst (fst (run_monitoring env thr cs p a))) = Pending /\
  digests (trace (snd (run_monitoring env thr cs p a)))
    = (digests (trace a) + due_count thr None cs)%nat.
Proof.
  intros H Q I. unfold run_monitoring. rewrite run_monitoring_eq. cbv zeta.
  unfold start_polling.
  set (p' := {| starts := tl (starts p); stops := stops p |}).
  assert (S : match starts p with
              | Some e :: _ => False
              | _ => True
              end) by (destruct (starts p) as [|[e|] ?]; simpl in H; now try discriminate).
  set (b := emit (LogInfo "Bot started polling") (emit StartPolling _)).
  assert (Db : digests (trace b) = digests (trace a)) by apply digests_startup.
  destruct (monitoring_loop_quiet env thr (restart env (nesting_room env) thr)
              cs None p' b Q I) as (b' & R & _ & _ & D).
  destruct (starts p) as [|[e|] ?]; [| contradiction |]; rewrite R; simpl; split;
    try reflexivity; lia.
Qed.

(** ** The watermark *)

Lemma date_eqb_eq (a b : date) : date_eqb a b = true <-> a = b.
Proof.
  unfold date_eqb. rewrite !andb_true_iff, !Z.eqb_eq.
  destruct a, b; simpl. split.
  - intros [[-> ->] ->]. reflexivity.
  - intros [= -> -> ->]. now repeat split.
Qed.

Lemma watermark_differs_same (d : date) : watermark_differs (Some d) d = false.
Proof.
  simpl. apply negb_false_iff. now apply date_eqb_eq.
Qed.

Lemma watermark_differs_other (d d' : date) :
  d <> d' -> watermark_differs (Some d) d' = true.
Proof.
  intros H. simpl. apply negb_true_iff.
  destruct (date_eqb d d') eqn:E; [|reflexivity].
  apply date_eqb_eq in E. contradiction.
Qed.

Lemma due_count_app (thr : string) (x y : list cycle) :
  forall last,
    due_count thr last (x ++ y) =
      (due_count thr last x + due_count thr (watermark_after thr last x) y)%nat.
Proof.
  induction x as [|c x IH]; intros last; simpl; [reflexivity|].
  destruct (eod_due thr last (now c)); rewrite IH; reflexivity.
Qed.

Lemma watermark_after_app (thr : string) (x y : list cycle) :
  forall last,
    watermark_after thr last (x ++ y) =
      watermark_after thr (watermark_after thr last x) y.
Proof.
  induction x as [|c x IH]; intros last; simpl; [reflexivity|].
  destruct (eod_due thr last (now c)); apply IH.
Qed.

(** [>=] on Python strings is the lexicographic order. *)
Lemma leb_lex (a b : string) : String.leb a b = true <-> lex_le a b.
Proof.
  revert b. induction a as [|x a IH]; intros [|y b]; unfold String.leb; simpl;
    [tauto | tauto | split; [discriminate | tauto] |].
  unfold Ascii.compare.
  destruct (N.compare_spec (N_of_ascii x) (N_of_ascii y)) as [E|L|G].
  - assert (X : x = y)
      by (rewrite <- (ascii_N_embedding x), <- (ascii_N_embedding y); now rewrite E).
    subst y. specialize (IH b). unfold String.leb in IH. rewrite IH.
    split; [tauto|]. intros [H|[_ H]]; [lia | exact H].
  - split; [|reflexivity]. intros _. left. unfold nat_of_ascii. lia.
  - split; [discriminate|]. unfold nat_of_ascii. intros [H|[H _]]; [lia|].
    subst y. lia.
Qed.

Lemma str_ge_lex (a b : string) : str_ge a b = true <-> lex_le b a.
Proof. apply leb_lex. Qed.

Lemma reached_at_or_after (thr : string) (c : cycle) :
  reached thr c = true <-> at_or_after thr c.
Proof. apply str_ge_lex. Qed.

Lemma reached_before (thr : string) (c : cycle) :
  reached thr c = false <-> ~ at_or_after thr c.
Proof.
  rewrite <- reached_at_or_after. destruct (reached thr c); split; congruence.
Qed.

(** Before the threshold nothing is due and the watermark stays. *)
Lemma due_count_before (thr : string) (d : date) (last : option date)
    (cs : list cycle) :
  Forall (before_threshold thr d) cs ->
  due_count thr last cs = 0%nat /\ watermark_after thr last cs = last.
Proof.
  induction 1 as [|c cs (_ & _ & R) _ IH]; simpl; [now split|].
  unfold eod_due. apply reached_before in R. unfold reached in R. now rewrite R.
Qed.

(** Once the watermark is the date, nothing is due on that date. *)
Lemma due_count_marked (d : date) (thr : string) (cs : list cycle) :
  Forall (same_day d) cs ->
  due_count thr (Some d) cs = 0%nat /\ watermark_after thr (Some d) cs = Some d.
Proof.
  induction 1 as [|c cs (_ & O) _ IH]; simpl; [now split|].
  unfold eod_due. unfold on_date in O.
  now rewrite O, watermark_differs_same, andb_false_r.
Qed.

(** The first reading at or after the threshold, on a date the watermark does
    not hold, is due, and marks the date. *)
Lemma due_at_threshold (thr : string) (d : date) (last : option date) (c : cycle) :
  past_threshold thr d c -> watermark_differs last d = true ->
  eod_due thr last (now c) = true.
Proof.
  intros (_ & O & R) W. unfold eod_due. apply reached_at_or_after in R.
  unfold reached in R. unfold on_date in O.
  now rewrite R, O, W.
Qed.

(** One date: no report before the threshold, one at the first reading past
    it, none after. *)
Lemma due_count_day (thr : string) (d : date) (last : option date)
    (early late : list cycle) (c : cycle) :
  watermark_differs last d = true ->
  Forall (before_threshold thr d) early ->
  past_threshold thr d c ->
  Forall (same_day d) late ->
  due_count thr last early = 0%nat /\
  due_count thr last (early ++ [c]) = 1%nat /\
  due_count thr last (early ++ c :: late) = 1%nat /\
  watermark_after thr last (early ++ c :: late) = Some d.
Proof.
  intros W E C L.
  destruct (due_count_before thr d last early E) as [D0 W0].
  destruct (due_count_marked d thr late L) as [D1 W1].
  pose proof (due_at_threshold thr d last c C W) as Due.
  assert (O : today (now c) = d) by apply C.
  repeat split.
  - exact D0.
  - rewrite due_count_app, D0, W0. simpl. now rewrite Due.
  - rewrite due_count_app, D0, W0. simpl. now rewrite Due, O, D1.
  - rewrite watermark_after_app, W0. simpl. now rewrite Due, O, W1.
Qed.

Lemma before_threshold_quiet (thr : string) (d : date) (cs : list cycle) :
  Forall (before_threshold thr d) cs -> Forall quiet cs.
Proof. apply Forall_impl. now intros c (Q & _). Qed.

Lemma same_day_quiet (d : date) (cs : list cycle) :
  Forall (same_day d) cs -> Forall quiet cs.
Proof. apply Forall_impl. now intros c (Q & _). Qed.

(** Goals on the clock reading of a given cycle. *)
Ltac on_the_clock :=
  repeat match goal with
  | |- Forall _ _ => constructor
  | |- same_day _ _ => split; reflexivity
  | |- before_threshold _ _ _ => split; [reflexivity | split; [reflexivity|]]
  | |- past_threshold _ _ _ => split; [reflexivity | split; [reflexivity|]]
  | |- at_or_after _ _ => vm_compute; intuition (try lia; try discriminate)
  | |- ~ at_or_after _ _ => vm_compute; intuition (try lia; try discriminate)
  end.

(** C6. In one run of [run_monitoring] whose polling starts, whose interval
    is a length [time.sleep] takes and whose cycles run their course, take
    the cycles of a date [d] and then those of a date [d'].  On each date
    the end-of-day report runs at the first cycle whose [%H:%M] reading is
    at or after the threshold in the lexicographic order of strings
    ([lex_le], which is stated apart from the comparison the code makes),
    not before it and not again on that date: no run after the early cycles
    of [d], one after the first cycle at or after the threshold, still one
    after the rest of [d] and the early cycles of [d'], two after the first
    cycle of [d'] at or after the threshold, and two at the end. *)
Theorem digest_once_per_date (env : environment) (thr : string) (p : polling)
    (self : notifier) (d d' : date) (early late early' late' : list cycle)
    (c c' : cycle) :
  sleepable env (check_interval self) ->
  hd None (starts p) = None ->
  d <> d' ->
  Forall (before_threshold thr d) early ->
  past_threshold thr d c ->
  Forall (same_day d) late ->
  Forall (before_threshold thr d') early' ->
  past_threshold thr d' c' ->
  Forall (same_day d') late' ->
  let triggered cs n :=
    digests (trace (snd (run_monitoring env thr cs p self)))
      = (digests (trace self) + n)%nat in
  triggered early 0%nat /\
  triggered (early ++ [c])%list 1%nat /\
  triggered (early ++ c :: late)%list 1%nat /\
  triggered ((early ++ c :: late) ++ early')%list 1%nat /\
  triggered ((early ++ c :: late) ++ early' ++ [c'])%list 2%nat /\
  triggered ((early ++ c :: late) ++ early' ++ c' :: late')%list 2%nat.
Proof.
  intros I S N E C L E' C' L' triggered.
  assert (T : forall cs n, Forall quiet cs -> due_count thr None cs = n ->
                triggered cs n).
  { intros cs n Q <-. unfold triggered.
    now destruct (run_monitoring_quiet env thr cs p self S Q I) as [_ D]. }
  assert (Qe : Forall quiet early) by now apply before_threshold_quiet in E.
  assert (Ql : Forall quiet late) by now apply same_day_quiet in L.
  assert (Qe' : Forall quiet early') by now apply before_threshold_quiet in E'.
  assert (Ql' : Forall quiet late') by now apply same_day_quiet in L'.
  assert (Qc : quiet c) by apply C.
  assert (Qc' : quiet c') by apply C'.
  destruct (due_count_day thr d None early late c eq_refl E C L) as (A0 & A1 & A2 & W).
  destruct (due_count_day thr d' (Some d) early' late' c'
              (watermark_differs_other d d' N) E' C' L') as (B0 & B1 & B2 & _).
  assert (Q1 : Forall quiet (early ++ c :: late))
    by (apply Forall_app; split; [exact Qe | now constructor]).
  split; [|split; [|split; [|split; [|split]]]]; apply T.
  - exact Qe.
  - exact A0.
  - apply Forall_app. split; [exact Qe | now constructor].
  - exact A1.
  - exact Q1.
  - exact A2.
  - apply Forall_app. now split.
  - rewrite due_count_app, A2, W, B0. reflexivity.
  - rewrite !Forall_app. repeat split; try assumption; now constructor.
  - rewrite due_count_app, A2, W, B1. reflexivity.
  - rewrite !Forall_app. repeat split; try assumption; now constructor.
  - rewrite due_count_app, A2, W, B2. reflexivity.
Qed.

Lemma digest_once_per_date_witness :
  let monday := march 4 in
  let tuesday := march 5 in
  let run cs := trace (snd (run_monitoring env_ok "16:00" cs calm with_three)) in
  (digests
     (run [ cycle_at monday 15 50 eod_ready None;
            cycle_at monday 16 0 eod_ready None;
            cycle_at monday 16 10 eod_ready None;
            cycle_at tuesday 9 0 eod_ready None;
            cycle_at tuesday 16 5 eod_ready None;
            cycle_at tuesday 23 55 eod_ready None ]) = 0 + 2)%nat.
Proof.
  refine (proj2 (proj2 (proj2 (proj2 (proj2
    (digest_once_per_date env_ok "16:00" calm with_three (march 4) (march 5)
       [cycle_at (march 4) 15 50 eod_ready None]
       [cycle_at (march 4) 16 10 eod_ready None]
       [cycle_at (march 5) 9 0 eod_ready None]
       [cycle_at (march 5) 23 55 eod_ready None]
       (cycle_at (march 4) 16 0 eod_ready None)
       (cycle_at (march 5) 16 5 eod_ready None)
       _ eq_refl _ _ _ _ _ _ _)))))).
  - unfold sleepable, sleep_max. simpl. lia.
  - discriminate.
  - on_the_clock.
  - on_the_clock.
  - on_the_clock.
  - on_the_clock.
  - on_the_clock.
  - on_the_clock.
Defined.

(** C9. When a cycle whose sleep runs its course, the interval being a
    length [time.sleep] takes, reads a time at or after the threshold on a
    date the watermark does not hold, the pass hands on the watermark set to
    that date whatever the collaborators answer: the report producer may
    give no data (a payload that tests false) or throw, in which case
    [generate_and_send_eod_report] ends on a log line.  Through the rest of
    the date the report does not run again: the loop over that cycle and any
    later cycles of the date has run it once. *)
Theorem failed_digest_spends_the_date (env : environment) (thr : string) (d : date)
    (c : cycle) (later : list cycle) (last : option date) (self : notifier)
    (again : list cycle -> polling -> notifier -> run * list cycle * polling * notifier)
    (p : polling) :
  sleepable env (check_interval self) ->
  watermark_differs last d = true ->
  past_threshold thr d c ->
  Forall (same_day d) later ->
  fst (iteration env thr c last self) = Returns (Some d) /\
  (exists b,
     monitoring_loop env thr again (c :: later) last p self = (Pending, [], p, b) /\
     digests (trace b) = (digests (trace self) + 1)%nat) /\
  (forall v, generated (report c) = Gives v -> truth v = false ->
   forall a, generate_and_send_eod_report env (report c) a =
             emit (LogError "Failed to generate EOD report")
               (emit (LogInfo "Generating EOD report...") a)) /\
  (forall e, generated (report c) = Throws e ->
   forall a, generate_and_send_eod_report env (report c) a =
             emit (LogError ("Error generating EOD report: " ++ e))
               (emit (LogInfo "Generating EOD report...") a)).
Proof.
  intros I W C L.
  pose proof (due_at_threshold thr d last c C W) as Due.
  assert (O : today (now c) = d) by apply C.
  assert (Qc : quiet c) by apply C.
  repeat split.
  - destruct (iteration_completes env thr c last self Qc I) as (b & R & _).
    rewrite R, Due, O. reflexivity.
  - destruct (monitoring_loop_quiet env thr again (c :: later) last p self)
      as (b & R & _ & _ & D); [| exact I |].
    + constructor; [exact Qc | now apply same_day_quiet in L].
    + exists b. split; [exact R|]. rewrite D. simpl. rewrite Due, O.
      now destruct (due_count_marked d thr later L) as [-> _].
  - intros v G F a. unfold generate_and_send_eod_report. now rewrite G, F.
  - intros e G a. unfold generate_and_send_eod_report. now rewrite G.
Qed.

Lemma failed_digest_spends_the_date_witness :
  fst (iteration env_ok "16:00" (cycle_at (march 4) 16 0 eod_failing None) None with_three)
    = Returns (Some (march 4)).
Proof.
  refine (proj1
    (failed_digest_spends_the_date env_ok "16:00" (march 4)
       (cycle_at (march 4) 16 0 eod_failing None)
       [cycle_at (march 4) 16 10 eod_ready None; cycle_at (march 4) 16 20 eod_ready None]
       None with_three (run_monitoring env_ok "16:00") calm _ eq_refl _ _)).
  - unfold sleepable, sleep_max. simpl. lia.
  - on_the_clock.
  - on_the_clock.
Defined.

(** ** Restarts *)

Lemma sleeps_emit (e : event) (a : notifier) :
  sleeps (trace (emit e a)) = (sleeps (trace a) ++ sleeps [e])%list.
Proof. now rewrite trace_emit, sleeps_app. Qed.

Lemma loop_starts_emit (e : event) (a : notifier) :
  loop_starts (trace (emit e a)) = (loop_starts (trace a) + loop_starts [e])%nat.
Proof. now rewrite trace_emit, loop_starts_app. Qed.

Ltac observe :=
  repeat rewrite ?sleeps_emit, ?loop_starts_emit;
  cbn [sleeps loop_starts flat_map filter length app];
  rewrite ?app_nil_r, ?Nat.add_0_r.

(** The handler of [run_monitoring] on an [Exception]: log, wait 60 seconds,
    call [run_monitoring] again, then the [finally] clause. *)
Lemma monitoring_loop_fault (env : environment) (thr : string)
    (again : list cycle -> polling -> notifier -> run * list cycle * polling * notifier)
    (c : cycle) (rest : list cycle) (last : option date) (p : polling)
    (a b : notifier) (e : exn) :
  iteration env thr c last a = (Raises e, b) ->
  is_Exception e = true ->
  monitoring_loop env thr again (c :: rest) last p a =
    finally_stop
      (again rest p
         (emit (Sleep 60)
            (emit (LogInfo "Restarting monitoring in 60 seconds...")
               (emit (LogError ("Error in monitoring: " ++ exn_text e)) b)))).
Proof.
  intros R E. simpl. rewrite R.
  destruct e; try discriminate E; reflexivity.
Qed.

(** As many cycles in a row as there is room for may fault:
    [run_monitoring] starts its loop again after each, 60 seconds later, and
    returns once interrupted. *)
Lemma run_monitoring_restarts (env : environment) (thr : string)
    (faulty : list cycle) (stopped : cycle) :
  Forall faults faulty -> interrupted stopped ->
  forall room a,
    (length faulty <= room)%nat ->
    sleepable env (check_interval a) ->
    exists b,
      run_monitoring_nested env room thr (faulty ++ [stopped]) calm a
        = (Returned, [], calm, b) /\
      loop_starts (trace b) = (loop_starts (trace a) + S (length faulty))%nat /\
      sleeps (trace b) = (sleeps (trace a) ++ repeat 60%Z (length faulty))%list.
Proof.
  intros F K. induction F as [|c faulty (e & W & E) F IH]; intros room a Room I.
  - rewrite run_monitoring_eq. cbv zeta. unfold start_polling. simpl starts.
    cbv iota. simpl app.
    set (a0 := emit (LogInfo "Bot started polling") (emit StartPolling _)).
    destruct (iteration_raises env thr stopped None a0 KeyboardInterrupt K)
      as (b & R & _ & _ & S & L); [exact I|].
    simpl monitoring_loop. rewrite R. simpl.
    eexists. split; [reflexivity|]. subst a0. split.
    + observe. rewrite L. observe. lia.
    + observe. rewrite S. observe. reflexivity.
  - rewrite run_monitoring_eq. cbv zeta. unfold start_polling. simpl starts.
    cbv iota. simpl app.
    set (a0 := emit (LogInfo "Bot started polling") (emit StartPolling _)).
    destruct (iteration_raises env thr c None a0 e W) as (b & R & _ & C & S & L);
      [exact I|].
    rewrite (monitoring_loop_fault env thr _ c _ None _ a0 b e R E).
    set (a1 := emit (Sleep 60) _).
    destruct room as [|room]; [simpl in Room; lia|].
    destruct (IH room a1) as (b' & R' & L' & S');
      [simpl in Room; lia | simpl; now rewrite C |].
    change {| starts := tl []; stops := stops calm |} with calm.
    cbn [restart]. rewrite R'. simpl.
    eexists. split; [reflexivity|]. subst a1 a0. split.
    + observe. rewrite L'. observe. rewrite L. observe. lia.
    + observe. rewrite S'. observe. rewrite S. observe.
      now rewrite <- app_assoc.
Qed.

(** ** The retry budget of [main] *)

(** A call of [run_monitoring] whose polling does not start. *)
Lemma run_monitoring_no_start (env : environment) (thr : string) (cs : list cycle)
    (e : exn) (more stops : list (option exn)) (a : notifier) :
  run_monitoring env thr cs {| starts := Some e :: more; stops := stops |} a =
    (Raised e, cs, {| starts := more; stops := stops |},
     emit (LogInfo ("EOD report time: " ++ thr))
       (emit (LogInfo ("Starting continuous monitoring every "
                         ++ str_Z (check_interval a) ++ " seconds")) a)).
Proof. unfold run_monitoring. now rewrite run_monitoring_eq. Qed.

(** One turn of the [while] loop of [main] on an [Exception]. *)
Lemma retry_loop_step (env : environment) (fuel : nat) (thr : string)
    (retry_count : nat) (cs cs' : list cycle) (p p' : polling) (a b : notifier)
    (e : exn) :
  (retry_count < max_retries)%nat ->
  run_monitoring env thr cs p a = (Raised e, cs', p', b) ->
  is_Exception e = true ->
  let logged :=
    emit (LogError ("Error in main loop (retry " ++ str_nat (S retry_count)
                      ++ "/" ++ str_nat max_retries ++ "): " ++ exn_text e)) b in
  retry_loop env (S fuel) thr retry_count cs p a =
    if (S retry_count <? max_retries)%nat then
      retry_loop env fuel thr (S retry_count) cs' p'
        (emit (Sleep (60 * Z.of_nat (S retry_count)))
           (emit (LogInfo ("Restarting in " ++ str_Z (60 * Z.of_nat (S retry_count))
                             ++ " seconds...")) logged))
    else Some (Exit 1, emit (LogError "Maximum retries reached, exiting") logged).
Proof.
  intros H R E logged. simpl retry_loop.
  apply Nat.ltb_lt in H. rewrite H, R, E. reflexivity.
Qed.

(** The fuel of [retry_loop] is never used up. *)
Lemma retry_loop_ends (env : environment) (thr : string) (fuel : nat) :
  forall (retry_count : nat) (cs : list cycle) (p : polling) (a : notifier),
    (retry_count < max_retries)%nat ->
    (max_retries <= fuel + retry_count)%nat ->
    retry_loop env fuel thr retry_count cs p a <> None.
Proof.
  induction fuel as [|fuel IH]; intros rc cs p a H F; [lia|].
  simpl retry_loop. apply Nat.ltb_lt in H as H'. rewrite H'.
  destruct (run_monitoring env thr cs p a) as [[[[|e| |] cs'] p'] b];
    try discriminate.
  destruct (is_Exception e); [|discriminate].
  destruct (S rc <? max_retries)%nat eqn:G; [|discriminate].
  apply IH; [now apply Nat.ltb_lt | lia].
Qed.

(** One turn of the [while] loop of [main] when [run_monitoring] returns. *)
Lemma retry_loop_returned (env : environment) (fuel : nat) (thr : string)
    (retry_count : nat) (cs cs' : list cycle) (p p' : polling) (a b : notifier) :
  (retry_count < max_retries)%nat ->
  run_monitoring env thr cs p a = (Returned, cs', p', b) ->
  retry_loop env (S fuel) thr retry_count cs p a = Some (Exit 0, b).
Proof.
  intros H R. simpl retry_loop.
  apply Nat.ltb_lt in H. now rewrite H, R.
Qed.

Lemma main_started (env : environment) (token : string) (interval : Z)
    (thr : string) (cs : list cycle) (p : polling) :
  token <> "" ->
  main env (Some token) interval thr Missing cs p =
    option_map (fun '(x, self) => (x, trace self))
      (retry_loop env max_retries thr 0 cs p
         {| users := []; users_file := Missing;
            check_interval := interval; trace := [] |}).
Proof.
  intros T. unfold main.
  destruct (String.eqb_spec token "") as [E|_]; [contradiction|reflexivity].
Qed.

Ltac fails_to_start :=
  erewrite retry_loop_step;
  [ | unfold max_retries; lia | apply run_monitoring_no_start | assumption ];
  cbv zeta;
  match goal with
  | |- context [(?n <? max_retries)%nat] =>
      let b := eval compute in (n <? max_retries)%nat in
      change (n <? max_retries)%nat with b
  end;
  cbv iota.

(** C1, as the code has it.  With a bot token and an interval that is a
    length [time.sleep] takes:
    (1) an [Exception] in the loop body is caught by [run_monitoring]
    itself, which waits 60 seconds and starts its loop again by calling
    itself, with no use of the retry budget.  As long as these calls nest
    within the room the recursion limit leaves ([nesting_room]), which may
    well be more than 5: after that many faulting cycles and an interrupt,
    [main] has started the loop once more than it faulted, waited 60
    seconds each time, and ends with status 0;
    (2) the budget of 5 is for the exceptions that leave [run_monitoring]:
    when polling fails to start five times, [main] waits 60, 120, 180 and
    240 seconds between the calls and exits with status 1 after the fifth;
    (3) [main] never takes more turns than its budget: the [while] loop
    always comes to an end, or is still inside [run_monitoring], or has
    nested its restarts deeper than it is followed. *)
Theorem restarts_and_retry_budget (env : environment) (token : string)
    (interval : Z) (thr : string) :
  token <> "" -> sleepable env interval ->
  (forall (faulty : list cycle) (stopped : cycle),
     Forall faults faulty -> interrupted stopped ->
     (length faulty <= nesting_room env)%nat ->
     exists t,
       main env (Some token) interval thr Missing (faulty ++ [stopped]) calm
         = Some (Exit 0, t) /\
       loop_starts t = S (length faulty) /\
       sleeps t = repeat 60%Z (length faulty)) /\
  (forall (cs : list cycle) (e1 e2 e3 e4 e5 : exn) (more stops : list (option exn)),
     is_Exception e1 = true -> is_Exception e2 = true -> is_Exception e3 = true ->
     is_Exception e4 = true -> is_Exception e5 = true ->
     exists t,
       main env (Some token) interval thr Missing cs
         {| starts := Some e1 :: Some e2 :: Some e3 :: Some e4 :: Some e5 :: more;
            stops := stops |}
         = Some (Exit 1, t) /\
       loop_starts t = 0%nat /\
       sleeps t = [60; 120; 180; 240]%Z) /\
  (forall (tok : option string) (file : file_state) (cs : list cycle) (p : polling),
     main env tok interval thr file cs p <> None).
Proof.
  intros T I. repeat split.
  - intros faulty stopped F K Room. rewrite main_started by exact T.
    destruct (run_monitoring_restarts env thr faulty stopped F K (nesting_room env)
                {| users := []; users_file := Missing;
                   check_interval := interval; trace := [] |} Room I)
      as (b & R & L & S).
    fold (run_monitoring env thr (faulty ++ [stopped]) calm
            {| users := []; users_file := Missing;
               check_interval := interval; trace := [] |}) in R.
    assert (B : (0 < max_retries)%nat) by (unfold max_retries; lia).
    change (retry_loop env max_retries) with (retry_loop env 5).
    rewrite (retry_loop_returned env 4 thr 0 _ _ _ _ _ b B R).
    simpl. exists (trace b). repeat split; assumption.
  - intros cs e1 e2 e3 e4 e5 more stops E1 E2 E3 E4 E5.
    rewrite main_started by exact T.
    change (retry_loop env max_retries) with (retry_loop env 5).
    do 5 fails_to_start.
    simpl option_map. eexists. split; [reflexivity|]. split.
    + observe. reflexivity.
    + observe. reflexivity.
  - intros tok file cs p. unfold main.
    destruct (match tok with None => true | Some t => String.eqb t "" end);
      [discriminate|].
    destruct (init file interval []) as [a|e]; [|discriminate].
    pose proof (retry_loop_ends env thr max_retries 0 cs p a) as H.
    destruct (retry_loop env max_retries thr 0 cs p a) as [[x b]|].
    + discriminate.
    + exfalso. apply H; unfold max_retries; lia || reflexivity.
Qed.

Lemma restarts_and_retry_budget_witness :
  let faulty := cycle_at (march 4) 10 0 eod_ready (Some disk_full) in
  let stopped := cycle_at (march 4) 10 20 eod_ready (Some KeyboardInterrupt) in
  (exists t,
     main env_ok (Some "123:abc") 600 "16:00" Missing
       ([faulty; faulty] ++ [stopped]) calm = Some (Exit 0, t) /\
     loop_starts t = 3%nat /\
     sleeps t = [60; 60]%Z) /\
  (exists t,
     main env_ok (Some "123:abc") 600 "16:00" Missing
       [cycle_at (march 4) 10 0 eod_ready None]
       {| starts := [Some disk_full; Some disk_full; Some disk_full;
                     Some disk_full; Some disk_full];
          stops := [] |}
       = Some (Exit 1, t) /\
     loop_starts t = 0%nat /\
     sleeps t = [60; 120; 180; 240]%Z).
Proof.
  intros faulty stopped.
  assert (T : "123:abc" <> "") by discriminate.
  assert (I : sleepable env_ok 600) by (unfold sleepable, sleep_max; simpl; lia).
  assert (F : Forall faults [faulty; faulty])
    by (repeat constructor; exists disk_full; split; reflexivity).
  assert (K : interrupted stopped) by reflexivity.
  assert (Room : (length [faulty; faulty] <= nesting_room env_ok)%nat)
    by (vm_compute; lia).
  split.
  - exact (proj1 (restarts_and_retry_budget env_ok "123:abc" 600 "16:00" T I)
             [faulty; faulty] stopped F K Room).
  - exact (proj1 (proj2 (restarts_and_retry_budget env_ok "123:abc" 600 "16:00" T I))
             [cycle_at (march 4) 10 0 eod_ready None]
             disk_full disk_full disk_full disk_full disk_full [] []
             eq_refl eq_refl eq_refl eq_refl eq_refl).
Defined.

(** C1, where it fails: the restarts of the loop are not bounded by the
    budget of 5 and their waits do not grow.  Seven faults in the loop body
    give seven restarts, each after 60 seconds, none of them counted by
    [main], which ends with status 0 once interrupted; and with a negative
    interval, where every [time.sleep] raises, the loop restarts at each of
    seven cycles and is still running. *)
Lemma loop_restarts_past_the_budget :
  let faulty := cycle_at (march 4) 10 0 eod_ready (Some disk_full) in
  let stopped := cycle_at (march 4) 10 0 eod_ready (Some KeyboardInterrupt) in
  let plain := cycle_at (march 4) 10 0 eod_ready None in
  (exists t,
     main env_ok (Some "123:abc") 600 "16:00" Missing
       (repeat faulty 7 ++ [stopped]) calm = Some (Exit 0, t) /\
     loop_starts t = 8%nat /\
     (max_retries < loop_starts t - 1)%nat /\
     sleeps t = repeat 60%Z 7 /\
     ~ In "Maximum retries reached, exiting" (errors t)) /\
  (exists t,
     main env_ok (Some "123:abc") (-1) "16:00" Missing (repeat plain 7) calm
       = Some (Running, t) /\
     loop_starts t = 8%nat /\
     (max_retries < loop_starts t - 1)%nat /\
     sleeps t = repeat 60%Z 7).
Proof.
  split.
  - eexists. split; [vm_compute; reflexivity|].
    vm_compute. repeat split; try lia.
    intros H. repeat (destruct H as [H|H]; [discriminate H|]). exact H.
  - eexists. split; [vm_compute; reflexivity|].
    vm_compute. repeat split; lia.
Qed.

(* ================================================================= *)
(** * Part III: further properties of the module *)
(* ================================================================= *)

(** ** The store under the commands *)

Lemma NoDup_push (l : list string) (x : string) :
  NoDup l -> ~ In x l -> NoDup (l ++ [x]).
Proof.
  induction 1 as [|y l Hy Hl IH]; intros Hx; simpl.
  - constructor; [tauto | constructor].
  - constructor.
    + intros H. apply in_app_or in H as [H|[H|[]]]; [tauto|].
      apply Hx. now left.
    + apply IH. intros H. apply Hx. now right.
Qed.

Lemma update_at_map {B : Type} (proj : user -> B) (g : user -> user) (i : nat)
    (us : list user) :
  (forall u, proj (g u) = proj u) ->
  map proj (update_at i g us) = map proj us.
Proof.
  intros H. revert i. induction us as [|u us IH]; intros [|i]; simpl;
    try reflexivity.
  - now rewrite H.
  - now rewrite IH.
Qed.

Lemma update_at_twice (g h : user -> user) (i : nat) (us : list user) :
  update_at i h (update_at i g us) = update_at i (fun u => h (g u)) us.
Proof.
  revert i. induction us as [|u us IH]; intros [|i]; simpl; try reflexivity.
  now rewrite IH.
Qed.

Lemma update_at_ext (g h : user -> user) (i : nat) (us : list user) :
  (forall u, g u = h u) -> update_at i g us = update_at i h us.
Proof.
  intros H. revert i. induction us as [|u us IH]; intros [|i]; simpl;
    try reflexivity.
  - now rewrite H.
  - now rewrite IH.
Qed.

Lemma find_user_update_at (g : user -> user) (id : string) (us : list user)
    (i : nat) (u : user) :
  (forall v, chat_id (g v) = chat_id v) ->
  find_user id us = Some (i, u) ->
  find_user id (update_at i g us) = Some (i, g u).
Proof.
  intros H. revert i. induction us as [|v us IH]; intros i F; simpl in *;
    [discriminate|].
  destruct (String.eqb (str (chat_id v)) id) eqn:E.
  - injection F as <- <-. simpl. now rewrite H, E.
  - destruct (find_user id us) as [[j w]|] eqn:F'; simpl in F; [|discriminate].
    injection F as <- <-. simpl. rewrite E, (IH j eq_refl). reflexivity.
Qed.

(** What [handle_message] does to the list of users: nothing, or one write
    of one flag through the first record of the sender. *)
Lemma handle_message_shape (env : environment) (chat : handle) (message : string)
    (self : notifier) :
  users (snd (handle_message env chat message self)) = users self \/
  exists i u f v,
    find_user (str chat) (users self) = Some (i, u) /\
    users (snd (handle_message env chat message self))
      = update_at i (write_flag f v) (users self).
Proof.
  assert (T : forall f i u text,
            find_user (str chat) (users self) = Some (i, u) ->
            users (snd (toggle env f i text self)) = users self \/
            exists i' u' f' v,
              find_user (str chat) (users self) = Some (i', u') /\
              users (snd (toggle env f i text self))
                = update_at i' (write_flag f' v) (users self)).
  { intros f i u text F. unfold toggle.
    destruct (nth_error (split space text) 1) as [tok|]; [|now left].
    right. exists i, u, f, (String.eqb (lower tok) "on"). split; [exact F|].
    simpl. now rewrite users_save_users. }
  unfold handle_message.
  destruct (find_user (str chat) (users self)) as [[i u]|] eqn:F; [|now left].
  destruct (startswith (lower message) "price "); [now apply (T _ _ u)|].
  destruct (startswith (lower message) "signal "); [now apply (T _ _ u)|].
  destruct (startswith (lower message) "news "); [now apply (T _ _ u)|].
  destruct (startswith (lower message) "eod "); [now apply (T _ _ u)|].
  now left.
Qed.

Lemma handle_message_frame (env : environment) (chat : handle)
    (message : string) (self : notifier) :
  let after := users (snd (handle_message env chat message self)) in
  map chat_id after = map chat_id (users self) /\
  map username after = map username (users self) /\
  map registered_at after = map registered_at (users self) /\
  (forall j u,
     nth_error (users self) j = Some u ->
     str (chat_id u) <> str chat ->
     nth_error after j = Some u).
Proof.
  intros after. unfold after.
  destruct (handle_message_shape env chat message self) as [E|(i & u & f & v & F & E)];
    rewrite E.
  - now repeat split.
  - repeat split; try (apply update_at_map; reflexivity).
    intros j w N D. rewrite update_at_other; [exact N|].
    intros <-. apply find_user_sound in F as [N' S]. congruence.
Qed.

(** X2. Whatever text arrives and whoever sends it, [handle_message] keeps
    the list of subscribers as it is but for the settings of the sender:
    the handles, names and dates of registration are the same, in the same
    order, and every record that does not answer to the sender's handle is
    untouched. *)
Theorem handle_message_keeps_others (env : environment) (chat : handle)
    (message : string) (self : notifier) :
  let after := users (snd (handle_message env chat message self)) in
  map chat_id after = map chat_id (users self) /\
  map username after = map username (users self) /\
  map registered_at after = map registered_at (users self) /\
  (forall j u,
     nth_error (users self) j = Some u ->
     str (chat_id u) <> str chat ->
     nth_error after j = Some u).
Proof. exact (handle_message_frame env chat message self). Qed.

Lemma register_user_users (env : environment) (id : handle) (name : option string)
    (now : string) (self : notifier) :
  users (snd (register_user env id name now self)) =
    if py_in (str id) (known_ids (users self)) then users self
    else push (users self) (new_user id name now).
Proof.
  unfold register_user.
  destruct (py_in (str id) (known_ids (users self))); simpl; [reflexivity|].
  apply users_save_users.
Qed.

Lemma start_command_users (env : environment) (chat : handle) (name : option string)
    (now : string) (self : notifier) :
  users (snd (start_command env chat name now self))
    = users (snd (register_user env chat name now self)).
Proof.
  unfold start_command.
  destruct (register_user env chat name now self) as [created a].
  now destruct (send_message_fault env chat).
Qed.

(** X1. If no two records of the store answer to the same handle, none of
    the commands makes it so: [register_user], [/start], a free text and
    [/settings] all leave the handles of the store pairwise distinct. *)
Theorem handles_stay_unique (env : environment) (self : notifier) :
  NoDup (known_ids (users self)) ->
  (forall id name now,
     NoDup (known_ids (users (snd (register_user env id name now self))))) /\
  (forall chat name now,
     NoDup (known_ids (users (snd (start_command env chat name now self))))) /\
  (forall chat message,
     NoDup (known_ids (users (snd (handle_message env chat message self))))) /\
  (forall chat, NoDup (known_ids (users (settings_command chat self)))).
Proof.
  intros H.
  assert (R : forall id name now,
            NoDup (known_ids (users (snd (register_user env id name now self))))).
  { intros id name now. rewrite register_user_users.
    destruct (py_in (str id) (known_ids (users self))) eqn:E; [exact H|].
    rewrite known_ids_push. apply NoDup_push; [exact H|].
    now apply py_in_not_In. }
  repeat split.
  - exact R.
  - intros chat name now. rewrite start_command_users. apply R.
  - intros chat message. unfold known_ids.
    rewrite <- (map_map chat_id str).
    destruct (handle_message_frame env chat message self) as [-> _].
    rewrite map_map. exact H.
  - intros chat. unfold settings_command.
    now destruct (find_user (str chat) (users self)) as [[i u]|].
Qed.

Lemma handles_stay_unique_witness :
  NoDup (known_ids (users (snd (register_user env_ok (IntId 101) None
                                  "2024-03-02 08:30:00" with_three)))).
Proof.
  refine (proj1 (handles_stay_unique env_ok with_three _) (IntId 101) None
            "2024-03-02 08:30:00").
  simpl. repeat constructor; simpl; intuition discriminate.
Defined.

(** A settings reply from a registered sender, in full. *)
Lemma handle_message_toggle (env : environment) (chat : handle) (self : notifier)
    (i : nat) (u : user) (f : flag) (category token : string) :
  find_user (str chat) (users self) = Some (i, u) ->
  lower category = keyword f ->
  has_space token = false ->
  handle_message env chat (category ++ " " ++ token) self =
    (Returns tt,
     emit (Reply (ack f (String.eqb (lower token) "on")))
       (save_users env
          (with_users
             (update_at i (write_flag f (String.eqb (lower token) "on")) (users self))
             self))).
Proof.
  intros F Hc Ht.
  assert (E : lower (category ++ " " ++ token) = keyword f ++ " " ++ lower token)
    by (rewrite !lower_app, Hc; reflexivity).
  rewrite (handle_message_branch env chat self i u f _ (lower token) F E).
  unfold toggle. rewrite E, split_keyword by apply keyword_no_space.
  rewrite split_no_space by now rewrite has_space_lower.
  simpl nth_error. cbv iota. rewrite lower_idem. reflexivity.
Qed.

Lemma write_flag_chat_id (f : flag) (v : bool) (u : user) :
  chat_id (write_flag f v u) = chat_id u.
Proof. reflexivity. Qed.

Lemma write_flag_same (f : flag) (v w : bool) (u : user) :
  write_flag f w (write_flag f v u) = write_flag f w u.
Proof. now destruct f. Qed.

Lemma write_flag_swap (f g : flag) (v w : bool) (u : user) :
  f <> g -> write_flag g w (write_flag f v u) = write_flag f v (write_flag g w u).
Proof. destruct f, g; intros H; try reflexivity; now elim H. Qed.

(** X3. A settings reply shows at once in [/settings]: after a registered
    sender's [<category> <token>], the next [/settings] from that sender
    answers with the settings of the sender's record in which that flag
    holds the new value and the three others are as before. *)
Theorem settings_show_the_toggle (env : environment) (chat : handle)
    (self : notifier) (i : nat) (u : user) (f : flag) (category token : string) :
  find_user (str chat) (users self) = Some (i, u) ->
  lower category = keyword f ->
  has_space token = false ->
  let after := snd (handle_message env chat (category ++ " " ++ token) self) in
  let shown := set_flag f (String.eqb (lower token) "on") (settings u) in
  settings_command chat after = emit (Reply (settings_message shown)) after /\
  get_flag f shown = String.eqb (lower token) "on" /\
  (forall g, g <> f -> get_flag g shown = get_flag g (settings u)).
Proof.
  intros F Hc Ht after shown. unfold after.
  rewrite (handle_message_toggle env chat self i u f category token F Hc Ht).
  repeat split.
  - unfold settings_command. cbn [snd].
    rewrite !users_emit, !users_save_users. cbn [users with_users].
    now rewrite (find_user_update_at _ _ _ i u (write_flag_chat_id f _) F).
  - unfold shown. rewrite get_set_flag. now destruct f.
  - intros g G. unfold shown. rewrite get_set_flag. destruct f, g; congruence.
Qed.

Lemma settings_show_the_toggle_witness :
  let after := snd (handle_message env_ok (IntId 103) ("EOD" ++ " " ++ "off") with_three) in
  settings_command (IntId 103) after =
    emit (Reply (settings_message
                   {| price_alerts := true; signal_alerts := true;
                      news_alerts := true; eod_reports := false |})) after.
Proof.
  exact (proj1 (settings_show_the_toggle env_ok (IntId 103) with_three 2 cho
                  EodReports "EOD" "off" eq_refl eq_refl eq_refl)).
Defined.

Lemma toggle_then_find (env : environment) (chat : handle) (self : notifier)
    (i : nat) (u : user) (f : flag) (category token : string) :
  find_user (str chat) (users self) = Some (i, u) ->
  lower category = keyword f ->
  has_space token = false ->
  let v := String.eqb (lower token) "on" in
  let after := snd (handle_message env chat (category ++ " " ++ token) self) in
  users after = update_at i (write_flag f v) (users self) /\
  find_user (str chat) (users after) = Some (i, write_flag f v u).
Proof.
  intros F Hc Ht v after. unfold after.
  rewrite (handle_message_toggle env chat self i u f category token F Hc Ht).
  cbn [snd]. rewrite !users_emit, !users_save_users. cbn [users with_users]. split.
  - reflexivity.
  - exact (find_user_update_at _ _ _ i u (write_flag_chat_id f v) F).
Qed.

(** X4. Settings replies compose as writes to one record.  From a
    registered sender, two replies for the same category leave the store as
    the second alone would (the last one wins, and a reply sent twice is a
    reply sent once); two replies for different categories leave the same
    store in either order. *)
Theorem toggles_compose (env : environment) (chat : handle) (self : notifier)
    (i : nat) (u : user) (f1 f2 : flag) (cat1 tok1 cat2 tok2 : string) :
  find_user (str chat) (users self) = Some (i, u) ->
  lower cat1 = keyword f1 -> has_space tok1 = false ->
  lower cat2 = keyword f2 -> has_space tok2 = false ->
  let say m s := snd (handle_message env chat m s) in
  let m1 := cat1 ++ " " ++ tok1 in
  let m2 := cat2 ++ " " ++ tok2 in
  (f1 = f2 -> users (say m2 (say m1 self)) = users (say m2 self)) /\
  (f1 <> f2 -> users (say m2 (say m1 self)) = users (say m1 (say m2 self))).
Proof.
  intros F C1 T1 C2 T2 say m1 m2.
  destruct (toggle_then_find env chat self i u f1 cat1 tok1 F C1 T1) as [U1 F1].
  destruct (toggle_then_find env chat self i u f2 cat2 tok2 F C2 T2) as [U2 F2].
  destruct (toggle_then_find env chat _ i _ f2 cat2 tok2 F1 C2 T2) as [U12 _].
  destruct (toggle_then_find env chat _ i _ f1 cat1 tok1 F2 C1 T1) as [U21 _].
  unfold say, m1, m2. split.
  - intros <-. rewrite U12, U1, U2, update_at_twice.
    apply update_at_ext. intros w. apply write_flag_same.
  - intros N. rewrite U12, U1, U21, U2, !update_at_twice.
    apply update_at_ext. intros w. now apply write_flag_swap.
Qed.

Lemma toggles_compose_witness :
  users (snd (handle_message env_ok (IntId 101) ("price" ++ " " ++ "on")
                (snd (handle_message env_ok (IntId 101) ("price" ++ " " ++ "off")
                        with_three))))
  = users (snd (handle_message env_ok (IntId 101) ("price" ++ " " ++ "on") with_three)).
Proof.
  exact (proj1 (toggles_compose env_ok (IntId 101) with_three 0 ann
                  PriceAlerts PriceAlerts "price" "off" "price" "on"
                  eq_refl eq_refl eq_refl eq_refl eq_refl) eq_refl).
Defined.

(** ** Registration, the disk and [/start] *)

Lemma errors_emit (e : event) (a : notifier) :
  errors (trace (emit e a)) = (errors (trace a) ++ errors [e])%list.
Proof. now rewrite trace_emit, errors_app. Qed.

Lemma registered_after (env : environment) (id : handle) (name : option string)
    (now : string) (self : notifier) :
  In (str id) (known_ids (users (snd (register_user env id name now self)))).
Proof.
  rewrite register_user_users.
  destruct (py_in (str id) (known_ids (users self))) eqn:E.
  - now apply py_in_In.
  - rewrite known_ids_push. apply in_or_app. right. now left.
Qed.

(** X5. A registration counts at once, and what a restart finds on disk
    depends on the write.  Registering an unknown handle returns true and
    the handle is in the store, whatever the disk does.  When the write
    succeeds, loading the file gives back the store as it is now.  When the
    file cannot be opened for writing, the failure is one error line and the
    file is as it was: loading it gives what it gave before the
    registration.  When the write fails once the file is open, the failure
    is one error line and the file, which [open] emptied, no longer parses:
    loading it logs the decoding error and gives the empty registry,
    whatever was on disk before. *)
Theorem registration_and_the_disk (env : environment) (id : handle)
    (name : option string) (now : string) (self : notifier) :
  ~ In (str id) (known_ids (users self)) ->
  let after := snd (register_user env id name now self) in
  fst (register_user env id name now self) = true /\
  users after = (users self ++ [new_user id name now])%list /\
  (disk_write env = None ->
   fst (load_users after) = Returns (users after) /\
   writes (trace after) = (writes (trace self) ++ [users after])%list) /\
  (forall e, disk_write env = Some (CannotOpen e) ->
   users_file after = users_file self /\
   fst (load_users after) = fst (load_users self) /\
   writes (trace after) = writes (trace self) /\
   errors (trace after)
     = (errors (trace self) ++ [("Error saving users file: " ++ e)%string])%list) /\
  (forall e, disk_write env = Some (CannotWrite e) ->
   users_file after = NotJson /\
   load_users after
     = (Returns empty_registry,
        emit (LogError "Error decoding users file, creating new one") after) /\
   writes (trace after) = writes (trace self) /\
   errors (trace after)
     = (errors (trace self) ++ [("Error saving users file: " ++ e)%string])%list).
Proof.
  intros H after. unfold after.
  rewrite (register_user_fresh env id name now self H). cbn [fst snd].
  unfold save_users. split; [reflexivity|]. split; [|split; [|split]].
  - now destruct (disk_write env) as [[e|e]|].
  - intros D. rewrite D. split; [reflexivity|].
    rewrite trace_emit. unfold writes. now rewrite flat_map_app.
  - intros e D. rewrite D. split; [reflexivity|].
    split; [unfold load_users; cbn [users_file emit with_users];
            now destruct (users_file self)|].
    split.
    + rewrite trace_emit. unfold writes.
      rewrite flat_map_app. simpl. now rewrite app_nil_r.
    + now rewrite errors_emit.
  - intros e D. rewrite D. split; [reflexivity|]. split; [reflexivity|].
    split.
    + rewrite trace_emit. unfold writes.
      rewrite flat_map_app. simpl. now rewrite app_nil_r.
    + now rewrite errors_emit.
Qed.

Lemma registration_and_the_disk_witness :
  let after :=
    snd (register_user env_disk_full (IntId 104) None "2024-03-02 08:30:00" with_three) in
  users_file after = NotJson /\
  fst (load_users after) = Returns [] /\
  In "104" (known_ids (users after)).
Proof.
  assert (H : ~ In (str (IntId 104)) (known_ids (users with_three)))
    by (simpl; intros [H|[H|[H|[]]]]; discriminate H).
  pose proof (registration_and_the_disk env_disk_full (IntId 104) None
                "2024-03-02 08:30:00" with_three H) as P.
  destruct (proj2 (proj2 (proj2 (proj2 P))) _ eq_refl) as (F & L & _).
  split; [exact F|]. split.
  - now rewrite L.
  - simpl. tauto.
Defined.

Lemma start_command_eq (env : environment) (chat : handle) (name : option string)
    (now : string) (self : notifier) :
  start_command env chat name now self =
    let r := register_user env chat name now self in
    match send_message_fault env chat with
    | Some e => (Raises (Error TelegramError e), snd r)
    | None =>
        (Returns tt,
         emit (SendMessage chat (if fst r then welcome else welcome_back)) (snd r))
    end.
Proof.
  unfold start_command. now destruct (register_user env chat name now self).
Qed.

(** X6. [/start] registers first and greets after.  The store after
    [/start] is the store after [register_user], whether or not the greeting
    goes out.  When the transport takes it, the one message sent is the
    welcome for a handle that was unknown and the welcome-back for a known
    one; when the transport refuses it, the exception leaves the handler
    with nothing sent.  Either way a second [/start] changes nothing in the
    store and, when its greeting goes out, greets with the welcome-back. *)
Theorem start_command_greets (env : environment) (chat : handle)
    (name name' : option string) (now now' : string) (self : notifier) :
  let registered := register_user env chat name now self in
  let first := start_command env chat name now self in
  let second := start_command env chat name' now' (snd first) in
  users (snd first) = users (snd registered) /\
  (send_message_fault env chat = None ->
   fst first = Returns tt /\
   trace (snd first) =
     (trace (snd registered) ++
      [SendMessage chat
         (if py_in (str chat) (known_ids (users self)) then welcome_back else welcome)])%list /\
   trace (snd second) = (trace (snd first) ++ [SendMessage chat welcome_back])%list) /\
  (forall e, send_message_fault env chat = Some e ->
   fst first = Raises (Error TelegramError e) /\
   trace (snd first) = trace (snd registered)) /\
  users (snd second) = users (snd first).
Proof.
  intros registered first second.
  assert (K : In (str chat) (known_ids (users (snd first)))).
  { unfold first. rewrite start_command_users. apply registered_after. }
  assert (R2 : register_user env chat name' now' (snd first) = (false, snd first))
    by now apply register_user_known.
  assert (Fst : fst registered = negb (py_in (str chat) (known_ids (users self)))).
  { unfold registered, register_user.
    now destruct (py_in (str chat) (known_ids (users self))). }
  split; [apply start_command_users|]. split; [|split].
  - intros S. split; [|split].
    + unfold first. rewrite start_command_eq. cbv zeta. now rewrite S.
    + unfold first. rewrite start_command_eq. cbv zeta. rewrite S.
      cbn [snd]. rewrite trace_emit. fold registered. rewrite Fst.
      now destruct (py_in (str chat) (known_ids (users self))).
    + unfold second. rewrite start_command_eq. cbv zeta.
      rewrite S, R2. reflexivity.
  - intros e S. unfold first. rewrite start_command_eq. cbv zeta. now rewrite S.
  - unfold second. rewrite start_command_users, R2. reflexivity.
Qed.

Lemma handle_message_keeps_others_witness :
  nth_error (users (snd (handle_message env_ok (IntId 101) "price off" with_three))) 1
    = Some bob.
Proof.
  refine (proj2 (proj2 (proj2
    (handle_message_keeps_others env_ok (IntId 101) "price off" with_three)))
    1%nat bob eq_refl _).
  discriminate.
Defined.

Lemma start_command_greets_witness :
  trace (snd (start_command env_ok (IntId 104) None "2024-03-02 08:30:00" with_three))
  = (trace (snd (register_user env_ok (IntId 104) None "2024-03-02 08:30:00" with_three))
     ++ [SendMessage (IntId 104) welcome])%list.
Proof.
  exact (proj1 (proj2 (proj1 (proj2
    (start_command_greets env_ok (IntId 104) None None
       "2024-03-02 08:30:00" "2024-03-02 08:31:00" with_three)) eq_refl))).
Defined.

(** ** Fan-out under any transport *)

Lemma messaged_emit (e : event) (a : notifier) :
  messaged (trace (emit e a)) = (messaged (trace a) ++ messaged [e])%list.
Proof. now rewrite trace_emit, messaged_app. Qed.

Lemma photographed_app (a b : list event) :
  photographed (a ++ b) = (photographed a ++ photographed b)%list.
Proof. apply flat_map_app. Qed.

Lemma photographed_emit (e : event) (a : notifier) :
  photographed (trace (emit e a)) = (photographed (trace a) ++ photographed [e])%list.
Proof. now rewrite trace_emit, photographed_app. Qed.

Lemma filter_filter {A : Type} (p q : A -> bool) (l : list A) :
  filter p (filter q l) = filter (fun x => q x && p x) l.
Proof.
  induction l as [|x l IH]; simpl; [reflexivity|].
  destruct (q x); simpl; [destruct (p x)|]; now rewrite IH.
Qed.

Lemma same_store_refl (a : notifier) : same_store a a.
Proof. now repeat split. Qed.

Lemma same_store_trans (a b c : notifier) :
  same_store a b -> same_store b c -> same_store a c.
Proof.
  intros (U1 & F1 & I1) (U2 & F2 & I2). repeat split; congruence.
Qed.

Lemma same_store_emit (e : event) (a : notifier) : same_store a (emit e a).
Proof. now repeat split. Qed.

Lemma extends_same_store (a b : notifier) (extra : list event) :
  extends a b extra -> same_store a b.
Proof. intros (U & F & I & _). now repeat split. Qed.

Lemma fanout_shows (env : environment) (chart : option string)
    (step : notifier -> user -> notifier) (l : list user) :
  step_shows env chart step ->
  forall a,
    same_store a (fold_left step l a) /\
    messaged (trace (fold_left step l a))
      = (messaged (trace a) ++ map chat_id (filter (served env) l))%list /\
    photographed (trace (fold_left step l a))
      = (photographed (trace a) ++
         map chat_id
           (filter (fun u => served env u && chart_there env chart && photo_served env u)
              l))%list /\
    length (errors (trace (fold_left step l a)))
      = (length (errors (trace a)) + length (filter (let_down env chart) l))%nat.
Proof.
  intros H. induction l as [|u l IH]; intros a; simpl.
  - rewrite !app_nil_r, Nat.add_0_r. repeat split.
  - destruct (H a u) as (S1 & M1 & P1 & E1).
    destruct (IH (step a u)) as (S2 & M2 & P2 & E2).
    split; [eapply same_store_trans; eassumption|].
    rewrite M2, M1, P2, P1, E2, E1. repeat split.
    + destruct (served env u); simpl; now rewrite <- app_assoc.
    + destruct (served env u && chart_there env chart && photo_served env u);
        simpl; now rewrite <- app_assoc.
    + destruct (let_down env chart u); simpl; lia.
Qed.

Ltac step_cases env u chart :=
  unfold let_down, served, photo_served, chart_there;
  destruct (send_message_fault env (chat_id u));
  [ | destruct chart as [?path|];
      [ destruct (path_exists env path);
        [ destruct (send_photo_fault env (chat_id u)) | ] | ] ];
  repeat split;
  rewrite ?messaged_emit, ?photographed_emit, ?errors_emit, ?length_app;
  simpl; rewrite ?app_nil_r; try reflexivity; try lia.

Lemma notify_one_shows (env : environment) (text : string) (chart : option string) :
  step_shows env chart (fun a u => notify_one env text chart u a).
Proof.
  intros a u. unfold notify_one. step_cases env u chart.
Qed.

Lemma report_one_shows (env : environment) (text : string) (rd : report_data) :
  step_shows env (rd_chart_path rd) (fun a u => report_one env text rd u a).
Proof.
  intros a u. unfold report_one. step_cases env u (rd_chart_path rd).
Qed.

Lemma select_eod_from (us acc : list user) :
  fold_left
    (fun recipients user =>
       if eod_reports (settings user) then push recipients user else recipients)
    us acc
  = (acc ++ filter (fun u => eod_reports (settings u)) us)%list.
Proof.
  revert acc. induction us as [|u us IH]; intros acc; simpl.
  - now rewrite app_nil_r.
  - rewrite IH. destruct (eod_reports (settings u)); [|reflexivity].
    unfold push. now rewrite <- app_assoc.
Qed.

Lemma send_notification_shows (env : environment) (n : notification)
    (self : notifier) :
  let l := select_recipients (n_type n) (users self) in
  let after := snd (send_notification env n self) in
  same_store self after /\
  messaged (trace after)
    = (messaged (trace self) ++ map chat_id (filter (served env) l))%list /\
  photographed (trace after)
    = (photographed (trace self) ++
       map chat_id
         (filter (fun u => served env u && chart_there env (n_chart_path n)
                           && photo_served env u) l))%list /\
  length (errors (trace after))
    = (length (errors (trace self))
       + length (filter (let_down env (n_chart_path n)) l))%nat.
Proof.
  intros l after. unfold after, send_notification. cbn [snd].
  exact (fanout_shows env (n_chart_path n) _ l
           (notify_one_shows env _ (n_chart_path n)) self).
Qed.

(** X7. Whatever the transport does, a notification of one of the three
    categories reaches exactly the subscribers who have that category on
    and whom the transport serves, in the order of the store: they get the
    text, and the photo too when the chart file is there and the transport
    takes it.  One error line is written for each opted-in subscriber who is
    let down, and none for a chart file that is missing; subscribers who
    have the category off get nothing; the store is as before. *)
Theorem notification_reaches_the_served (env : environment) (c : category)
    (n : notification) (self : notifier) :
  n_type n = type_name c ->
  let wants u := get_flag (category_flag c) (settings u) in
  let after := snd (send_notification env n self) in
  same_store self after /\
  messaged (trace after)
    = (messaged (trace self) ++
       map chat_id (filter (fun u => wants u && served env u) (users self)))%list /\
  photographed (trace after)
    = (photographed (trace self) ++
       map chat_id
         (filter (fun u => wants u && (served env u && chart_there env (n_chart_path n)
                                       && photo_served env u)) (users self)))%list /\
  length (errors (trace after))
    = (length (errors (trace self))
       + length (filter (fun u => wants u && let_down env (n_chart_path n) u)
                   (users self)))%nat.
Proof.
  intros T wants after.
  destruct (send_notification_shows env n self) as (S & M & P & E).
  assert (L : select_recipients (n_type n) (users self) = filter wants (users self))
    by (rewrite T; unfold select_recipients; now rewrite select_recipients_from).
  rewrite L, !filter_filter in *. unfold after.
  split; [exact S|]. split; [exact M|]. split; [exact P | exact E].
Qed.

Lemma notification_reaches_the_served_witness :
  messaged (trace (snd (send_notification env_bob_blocked price_alert with_three)))
  = [IntId 101; IntId 103].
Proof.
  exact (proj1 (proj2
    (notification_reaches_the_served env_bob_blocked Price price_alert with_three
       eq_refl))).
Defined.

Lemma select_recipients_unknown (t : string) (us acc : list user) :
  t <> "price" -> t <> "signal" -> t <> "news" ->
  fold_left
    (fun recipients user =>
       let s := settings user in
       if String.eqb t "price" && price_alerts s
       then push recipients user
       else if String.eqb t "signal" && signal_alerts s
       then push recipients user
       else if String.eqb t "news" && news_alerts s
       then push recipients user
       else recipients)
    us acc
  = acc.
Proof.
  intros P S N.
  apply String.eqb_neq in P, S, N.
  rewrite P, S, N. cbn [andb].
  revert acc. induction us as [|u us IH]; intros acc; simpl; [reflexivity|].
  apply IH.
Qed.

(** X8. A notification whose type is none of [price], [signal] and [news]
    reaches nobody: no recipient is selected, nothing is sent or logged,
    and the notifier is left exactly as it was. *)
Theorem unknown_type_reaches_nobody (env : environment) (n : notification)
    (self : notifier) :
  n_type n <> "price" -> n_type n <> "signal" -> n_type n <> "news" ->
  select_recipients (n_type n) (users self) = [] /\
  send_notification env n self = (NoneValue, self).
Proof.
  intros P S N.
  assert (L : select_recipients (n_type n) (users self) = [])
    by (unfold select_recipients; now apply select_recipients_unknown).
  split; [exact L|].
  unfold send_notification. now rewrite L.
Qed.

Lemma unknown_type_reaches_nobody_witness :
  send_notification env_ok
    {| n_type := "eod"; n_title := "Daily"; n_message := "Closed higher";
       n_chart_path := None |} with_three
  = (NoneValue, with_three).
Proof.
  refine (proj2 (unknown_type_reaches_nobody env_ok _ with_three _ _ _));
    discriminate.
Defined.

Ltac shown :=
  rewrite ?messaged_emit, ?photographed_emit, ?errors_emit, ?length_app;
  cbn [messaged photographed errors flat_map app length];
  rewrite ?app_nil_r, ?Nat.add_0_r.

(** X9. The scheduled end-of-day report goes out only when all three
    collaborators answer (report data that test true, HTML report, message
    text); then it reaches exactly the subscribers who have [eod_reports]
    on and whom the transport serves, in the order of the store, with the
    chart for those the transport takes it for when its file is there.  In
    every other case (no data, empty data, no HTML report, any collaborator
    throwing) nobody gets anything; report data that test false, [None] or
    empty, end the run on the line [Failed to generate EOD report].  The
    store is never changed. *)
Theorem digest_reaches_the_served (env : environment) (col : reporting)
    (self : notifier) :
  let wants u := eod_reports (settings u) in
  let after := generate_and_send_eod_report env col self in
  (forall v, generated col = Gives v -> truth v = false ->
   after = emit (LogError "Failed to generate EOD report")
             (emit (LogInfo "Generating EOD report...") self)) /\
  same_store self after /\
  messaged (trace after)
    = (messaged (trace self) ++
       match digest_ready col with
       | Some _ =>
           map chat_id (filter (fun u => wants u && served env u) (users self))
       | None => []
       end)%list /\
  photographed (trace after)
    = (photographed (trace self) ++
       match digest_ready col with
       | Some (rd, _) =>
           map chat_id
             (filter (fun u => wants u && (served env u
                                           && chart_there env (rd_chart_path rd)
                                           && photo_served env u)) (users self))
       | None => []
       end)%list.
Proof.
  intros wants after. split.
  { intros v G F. unfold after, generate_and_send_eod_report. now rewrite G, F. }
  unfold after, generate_and_send_eod_report, digest_ready.
  destruct (generated col) as [[| |rd]|e]; cbn [truth data_of];
    [ repeat split; shown; reflexivity | repeat split; shown; reflexivity
    | | repeat split; shown; reflexivity].
  unfold send_eod_report.
  destruct (rendered col) as [[html|]|e];
    [| repeat split; shown; reflexivity | repeat split; shown; reflexivity].
  destruct (formatted col) as [text|e];
    [| repeat split; shown; reflexivity].
  set (a0 := emit (LogInfo "EOD report generated") _).
  destruct (fanout_shows env (rd_chart_path rd) _
              (select_eod_recipients (users a0))
              (report_one_shows env text rd) a0) as (S & M & P & _).
  assert (L : select_eod_recipients (users a0) = filter wants (users self))
    by (unfold select_eod_recipients; now rewrite select_eod_from).
  rewrite L, !filter_filter in *.
  split; [|split].
  - eapply same_store_trans; [|exact S]. subst a0. now repeat split.
  - etransitivity; [exact M|]. subst a0. shown. reflexivity.
  - etransitivity; [exact P|]. subst a0. shown. reflexivity.
Qed.

Lemma send_photo_to_all_shows (env : environment) (path : string)
    (caption : option string) (step : notifier -> user -> notifier) :
  (forall self user,
     step self user =
       if path_exists env path then
         match send_photo_fault env (chat_id user) with
         | Some e =>
             emit (LogError ("Error sending photo to " ++ str (chat_id user)
                               ++ ": " ++ e)) self
         | None => emit (SendPhoto (chat_id user) path caption) self
         end
       else
         emit (LogError ("Error sending photo to " ++ str (chat_id user)
                           ++ ": " ++ no_such_file path)) self) ->
  forall l a,
    same_store a (fold_left step l a) /\
    messaged (trace (fold_left step l a)) = messaged (trace a) /\
    photographed (trace (fold_left step l a))
      = (photographed (trace a) ++
         if path_exists env path then map chat_id (filter (photo_served env) l)
         else [])%list /\
    length (errors (trace (fold_left step l a)))
      = (length (errors (trace a)) +
         if path_exists env path
         then length (filter (fun u => negb (photo_served env u)) l)
         else length l)%nat.
Proof.
  intros H. induction l as [|u l IH]; intros a; cbn [fold_left].
  - destruct (path_exists env path); simpl; rewrite ?app_nil_r, Nat.add_0_r;
      repeat split.
  - destruct (IH (step a u)) as (S & M & P & E).
    split; [|split; [|split]].
    + eapply same_store_trans; [|exact S]. rewrite H.
      destruct (path_exists env path);
        [destruct (send_photo_fault env (chat_id u))|]; apply same_store_emit.
    + rewrite M, H.
      destruct (path_exists env path);
        [destruct (send_photo_fault env (chat_id u))|]; shown; reflexivity.
    + rewrite P, H. unfold photo_served. cbn [filter].
      destruct (path_exists env path);
        [destruct (send_photo_fault env (chat_id u))|]; shown;
        simpl; now rewrite <- ?app_assoc.
    + rewrite E, H. unfold photo_served. cbn [filter].
      destruct (path_exists env path);
        [destruct (send_photo_fault env (chat_id u))|]; shown; simpl; lia.
Qed.

Lemma send_message_step_shows (env : environment) (message : string) :
  step_shows env None
    (fun self user =>
       match send_message_fault env (chat_id user) with
       | Some e =>
           emit (LogError ("Error sending message to " ++ str (chat_id user)
                             ++ ": " ++ e)) self
       | None => emit (SendMessage (chat_id user) message) self
       end).
Proof.
  intros a u. unfold let_down, served, chart_there.
  destruct (send_message_fault env (chat_id u)); repeat split; shown;
    simpl; try reflexivity; lia.
Qed.

(** X10. The two broadcasts go to every registered user, whatever the
    settings and whatever fails on the way.  [send_message_to_all] sends the
    text to the users the transport serves, in the order of the store, and
    writes one error line for each of the others.  [send_photo_to_all] does
    the same with the photo when its file is there; when the file is
    missing nobody gets a photo and one error line is written per user.
    In both, sends and error lines add up to the number of users, and the
    store is as before. *)
Theorem broadcasts_reach_every_user (env : environment) (self : notifier) :
  (forall message,
     let after := send_message_to_all env message self in
     same_store self after /\
     messaged (trace after)
       = (messaged (trace self) ++ map chat_id (filter (served env) (users self)))%list /\
     length (errors (trace after))
       = (length (errors (trace self))
          + length (filter (fun u => negb (served env u)) (users self)))%nat /\
     (length (messaged (trace after)) + length (errors (trace after))
      = length (messaged (trace self)) + length (errors (trace self))
        + length (users self))%nat) /\
  (forall path caption,
     let after := send_photo_to_all env path caption self in
     same_store self after /\
     photographed (trace after)
       = (photographed (trace self) ++
          if path_exists env path
          then map chat_id (filter (photo_served env) (users self))
          else [])%list /\
     length (errors (trace after))
       = (length (errors (trace self)) +
          if path_exists env path
          then length (filter (fun u => negb (photo_served env u)) (users self))
          else length (users self))%nat /\
     (length (photographed (trace after)) + length (errors (trace after))
      = length (photographed (trace self)) + length (errors (trace self))
        + length (users self))%nat).
Proof.
  assert (Split : forall (p : user -> bool) (l : list user),
            (length (filter p l) + length (filter (fun u => negb (p u)) l)
             = length l)%nat).
  { intros p l. induction l as [|u l IH]; simpl; [reflexivity|].
    destruct (p u); simpl; lia. }
  split.
  - intros message after.
    destruct (fanout_shows env None _ (users self)
                (send_message_step_shows env message) self) as (S & M & _ & E).
    unfold after, send_message_to_all.
    set (done := fold_left _ (users self) self) in *.
    assert (E' : length (errors (trace done))
                 = (length (errors (trace self))
                    + length (filter (fun u => negb (served env u)) (users self)))%nat).
    { rewrite E. f_equal. f_equal. apply filter_ext. intros u.
      unfold let_down, chart_there. cbn [andb]. now rewrite orb_false_r. }
    split; [exact S|]. split; [exact M|]. split; [exact E'|].
    rewrite M, E', length_app, length_map.
    pose proof (Split (served env) (users self)). lia.
  - intros path caption after.
    destruct (send_photo_to_all_shows env path caption _
                (fun _ _ => eq_refl) (users self) self) as (S & _ & P & E).
    unfold after, send_photo_to_all.
    set (done := fold_left _ (users self) self) in *.
    split; [exact S|]. split; [exact P|]. split; [exact E|].
    rewrite P, E, length_app.
    destruct (path_exists env path).
    + rewrite length_map. pose proof (Split (photo_served env) (users self)). lia.
    + simpl. lia.
Qed.

Lemma check_cycle_fold (env : environment) (ns : list notification) :
  forall a,
    let after := fold_left (fun self n => snd (send_notification env n self)) ns a in
    same_store a after /\
    messaged (trace after)
      = (messaged (trace a) ++
         flat_map
           (fun n => map chat_id
                       (filter (served env) (select_recipients (n_type n) (users a))))
           ns)%list.
Proof.
  induction ns as [|n ns IH]; intros a after; unfold after;
    cbn [fold_left flat_map].
  - rewrite app_nil_r. split; [apply same_store_refl | reflexivity].
  - destruct (send_notification_shows env n a) as (S & M & _).
    destruct (IH (snd (send_notification env n a))) as (S' & M').
    split; [eapply same_store_trans; eassumption|].
    rewrite M', M. destruct S as (U & _). rewrite U. now rewrite <- app_assoc.
Qed.

(** X11. A check cycle delivers its notifications one after the other, each
    to the recipients of its type whom the transport serves, and always
    against the same store: no notification changes who gets the next.
    When the producer throws, or gives nothing, nobody gets anything.  The
    store is as before. *)
Theorem check_cycle_delivers_in_order (env : environment)
    (checked : reply (list notification)) (self : notifier) :
  let after := run_check_cycle env checked self in
  same_store self after /\
  messaged (trace after)
    = (messaged (trace self) ++
       match checked with
       | Gives ns =>
           flat_map
             (fun n => map chat_id
                         (filter (served env)
                            (select_recipients (n_type n) (users self))))
             ns
       | Throws _ => []
       end)%list.
Proof.
  intros after. unfold after, run_check_cycle.
  destruct checked as [[|n ns]|e].
  - split; [now repeat split | shown; reflexivity].
  - set (a0 := emit (LogInfo _) (emit (LogInfo "Running check cycle...") self)).
    destruct (check_cycle_fold env (n :: ns) a0) as (S & M).
    split.
    + eapply same_store_trans; [|exact S]. subst a0. now repeat split.
    + etransitivity; [exact M|]. subst a0. shown. reflexivity.
  - split; [now repeat split | shown; reflexivity].
Qed.

Lemma replies_app (a b : list event) : replies (a ++ b) = (replies a ++ replies b)%list.
Proof. apply flat_map_app. Qed.

Lemma replies_emit (e : event) (a : notifier) :
  replies (trace (emit e a)) = (replies (trace a) ++ replies [e])%list.
Proof. now rewrite trace_emit, replies_app. Qed.

Ltac answered :=
  rewrite ?messaged_emit, ?photographed_emit, ?replies_emit;
  cbn [messaged photographed replies flat_map app];
  rewrite <- ?app_assoc, ?app_nil_r; cbn [app].

(** X12. [/report] answers the sender and nobody else.  Whatever the
    collaborators and the transport do, it changes nothing in the store and
    sends no text to any subscriber; its first reply is the progress line.
    When the three collaborators answer, the second reply is the report
    message, and the chart follows to the sender alone, if its file is
    there and the transport takes it.  Otherwise there is exactly one more
    reply, which says what failed, and no photo. *)
Theorem report_command_answers_the_sender (env : environment) (chat : handle)
    (col : reporting) (self : notifier) :
  let after := report_command env chat col self in
  same_store self after /\
  messaged (trace after) = messaged (trace self) /\
  match report_ready col with
  | Some (rd, text) =>
      (exists tail,
         replies (trace after)
           = (replies (trace self) ++ "Generating EOD report..." :: text :: tail)%list) /\
      photographed (trace after)
        = (photographed (trace self) ++
           if chart_there env (rd_chart_path rd)
              && match send_photo_fault env chat with None => true | Some _ => false end
           then [chat] else [])%list
  | None =>
      (exists line,
         replies (trace after)
           = (replies (trace self) ++ ["Generating EOD report..."; line])%list) /\
      photographed (trace after) = photographed (trace self)
  end.
Proof.
  intros after. unfold after, report_command, report_ready, chart_there.
  destruct (generated col) as [v|e].
  - destruct (data_of v) as [rd|]; cbn [option_map].
    + destruct (rendered col) as [[html|]|e].
      * destruct (formatted col) as [text|e].
        -- destruct (rd_chart_path rd) as [path|];
             [destruct (path_exists env path);
              [destruct (send_photo_fault env chat)|]|];
             (split; [now repeat split|]); (split; [answered; reflexivity|]);
             (split; [eexists; answered; reflexivity | answered; reflexivity]).
        -- (split; [now repeat split|]); (split; [answered; reflexivity|]);
             (split; [eexists; answered; reflexivity | answered; reflexivity]).
      * (split; [now repeat split|]); (split; [answered; reflexivity|]);
          (split; [eexists; answered; reflexivity | answered; reflexivity]).
      * (split; [now repeat split|]); (split; [answered; reflexivity|]);
          (split; [eexists; answered; reflexivity | answered; reflexivity]).
    + destruct (rendered col) as [[html|]|e];
        [destruct (formatted col) as [text|e]| |];
        (split; [now repeat split|]); (split; [answered; reflexivity|]);
        (split; [eexists; answered; reflexivity | answered; reflexivity]).
  - (split; [now repeat split|]); (split; [answered; reflexivity|]);
      (split; [eexists; answered; reflexivity | answered; reflexivity]).
Qed.

(** ** What every run of the loop keeps *)

Lemma loop_stops_app (a b : list event) :
  loop_stops (a ++ b) = (loop_stops a + loop_stops b)%nat.
Proof. unfold loop_stops. now rewrite filter_app, length_app. Qed.

Lemma loop_stops_emit (e : event) (a : notifier) :
  loop_stops (trace (emit e a)) = (loop_stops (trace a) + loop_stops [e])%nat.
Proof. now rewrite trace_emit, loop_stops_app. Qed.

Lemma background_is_cycle_event (extra : list event) :
  forallb background extra = true -> forallb cycle_event extra = true.
Proof.
  induction extra as [|e extra IH]; simpl; [reflexivity|].
  intros H. apply andb_true_iff in H as [He Hx]. rewrite (IH Hx), andb_true_r.
  now destruct e.
Qed.

Lemma cycle_events_show_no_polling (extra : list event) :
  forallb cycle_event extra = true ->
  loop_starts extra = 0%nat /\ loop_stops extra = 0%nat.
Proof.
  induction extra as [|e extra IH]; intros H; [now split|].
  simpl in H. apply andb_true_iff in H as [He Hx].
  destruct (IH Hx) as [S T].
  change (e :: extra) with ([e] ++ extra)%list.
  rewrite loop_starts_app, loop_stops_app, S, T.
  destruct e; try discriminate He; now split.
Qed.

(** A pass of the loop, however it ends, adds only events of a cycle. *)
Lemma iteration_events (env : environment) (thr : string) (c : cycle)
    (last : option date) (a : notifier) :
  exists extra,
    extends a (snd (iteration env thr c last a)) extra /\
    forallb cycle_event extra = true.
Proof.
  unfold iteration.
  destruct (run_check_cycle_background env (checked c) a) as (x1 & E1 & B1).
  apply background_is_cycle_event in B1.
  set (a1 := run_check_cycle env (checked c) a) in *.
  assert (Tail : forall (w : option date) (m : notifier) (x : list event),
            extends a m x -> forallb cycle_event x = true ->
            exists extra,
              extends a
                (snd (match sleep env (check_interval
                                     (emit (LogInfo ("Sleeping for "
                                                       ++ str_Z (check_interval m)
                                                       ++ " seconds...")) m))
                              (wake c)
                              (emit (LogInfo ("Sleeping for "
                                                ++ str_Z (check_interval m)
                                                ++ " seconds...")) m) with
                      | (Returns _, b) => (Returns w, b)
                      | (Raises e, b) => (Raises e, b)
                      end)) extra /\
              forallb cycle_event extra = true).
  { intros w m x E B.
    set (line := LogInfo _).
    assert (K : forall s,
              exists x',
                extends (emit line m) (snd (sleep env s (wake c) (emit line m))) x' /\
                forallb cycle_event x' = true).
    { intros s. unfold sleep.
      destruct ((s <? - sleep_max)%Z || (sleep_max <? s)%Z);
        [exists []; split; [apply extends_refl | reflexivity]|].
      destruct (s <? 0)%Z; [exists []; split; [apply extends_refl | reflexivity]|].
      destruct (longest_sleep env <? s)%Z;
        [exists []; split; [apply extends_refl | reflexivity]|].
      destruct (wake c).
      - exists []. split; [apply extends_refl | reflexivity].
      - exists [Sleep s]. split; [apply extends_emit | reflexivity]. }
    destruct (K (check_interval (emit line m))) as (x' & E' & B').
    exists ((x ++ [line]) ++ x')%list. split.
    - destruct (sleep env _ (wake c) (emit line m)) as [[[]|e] b]; cbn [snd] in *;
        exact (extends_trans _ _ _ _ _
                 (extends_trans _ _ _ _ _ E (extends_emit m line)) E').
    - now rewrite !forallb_app, B, B'. }
  destruct (eod_due thr last (now c)).
  - destruct (generate_and_send_eod_report_trace env (report c) a1) as (x2 & E2 & B2).
    apply background_is_cycle_event in B2.
    apply (Tail _ _ (x1 ++ LogInfo digest_line :: x2)%list).
    + exact (extends_trans _ _ _ _ _ E1 E2).
    + rewrite forallb_app, B1. simpl. exact B2.
  - now apply (Tail _ _ x1).
Qed.

Lemma iteration_keeps (env : environment) (thr : string) (c : cycle)
    (last : option date) (a : notifier) :
  let b := snd (iteration env thr c last a) in
  same_store a b /\
  loop_starts (trace b) = loop_starts (trace a) /\
  loop_stops (trace b) = loop_stops (trace a).
Proof.
  intros b. destruct (iteration_events env thr c last a) as (extra & E & C).
  destruct (cycle_events_show_no_polling extra C) as [S T].
  split; [exact (extends_same_store _ _ _ E)|].
  destruct E as (_ & _ & _ & Tr). fold b in Tr.
  rewrite Tr, loop_starts_app, loop_stops_app, S, T. lia.
Qed.

Lemma run_invariant_shift (k : nat) (p : polling) (a b : notifier)
    (r : run * list cycle * polling * notifier) :
  same_store a b ->
  loop_starts (trace b) = loop_starts (trace a) ->
  loop_stops (trace b) = loop_stops (trace a) ->
  run_invariant k p b r -> run_invariant k p a r.
Proof.
  destruct r as [[[res rest] p'] b']. unfold run_invariant.
  intros S Ls Lt (S' & H). split; [eapply same_store_trans; eassumption|].
  intros Q. destruct (H Q) as (Q' & Bal & N). split; [exact Q'|]. split.
  - intros R. specialize (Bal R). lia.
  - exact N.
Qed.

Lemma finally_stop_keeps (p : polling) (a : notifier)
    (r : run * list cycle * polling * notifier) :
  run_invariant 0 p a r -> run_invariant 1 p a (finally_stop r).
Proof.
  destruct r as [[[res rest] p'] b].
  unfold run_invariant, finally_stop. intros (S & H).
  assert (Stop : ended res ->
            match stop_polling p' b with
            | (Raises e, p'', b') =>
                same_store a b' /\ (stops p = [] -> False)
            | (Returns _, p'', b') =>
                same_store a b' /\
                (stops p = [] ->
                 stops p'' = [] /\ starts p'' = starts p' /\
                 (loop_stops (trace b') + loop_starts (trace a)
                  = loop_starts (trace b') + loop_stops (trace a) + 1)%nat)
            end).
  { intros R. unfold stop_polling.
    destruct (stops p') as [|[x|] more] eqn:Q'.
    - split; [eapply same_store_trans; [exact S | now repeat split]|].
      intros Q. destruct (H Q) as (_ & Bal & _). specialize (Bal R).
      repeat split.
      rewrite !loop_stops_emit, !loop_starts_emit.
      cbn [loop_stops loop_starts filter length]. lia.
    - split; [exact S|]. intros Q. destruct (H Q) as (Q0 & _). congruence.
    - split; [eapply same_store_trans; [exact S | now repeat split]|].
      intros Q. destruct (H Q) as (Q0 & _). congruence. }
  destruct res as [|e| |].
  - specialize (Stop (or_introl eq_refl)).
    destruct (stop_polling p' b) as [[[[]|x] p''] b'].
    + destruct Stop as (S' & K). split; [exact S'|]. intros Q.
      destruct (K Q) as (Q'' & St & Bal). split; [exact Q''|].
      split; [intros _; exact Bal|].
      intros St0. destruct (H Q) as (_ & _ & N). destruct (N St0) as [St1 _].
      split; [congruence | discriminate].
    + destruct Stop as (S' & K). split; [exact S'|]. intros Q. now elim (K Q).
  - specialize (Stop (or_intror (ex_intro _ e eq_refl))).
    destruct (stop_polling p' b) as [[[[]|x] p''] b'].
    + destruct Stop as (S' & K). split; [exact S'|]. intros Q.
      destruct (K Q) as (Q'' & St & Bal). split; [exact Q''|].
      split; [intros _; exact Bal|].
      intros St0. destruct (H Q) as (_ & _ & N). destruct (N St0) as [St1 NE].
      split; [congruence | exact NE].
    + destruct Stop as (S' & K). split; [exact S'|]. intros Q. now elim (K Q).
  - split; [exact S|]. intros Q. destruct (H Q) as (Q' & _ & N).
    split; [exact Q'|]. split; [intros [X|[x X]]; discriminate X | exact N].
  - split; [exact S|]. intros Q. destruct (H Q) as (Q' & _ & N).
    split; [exact Q'|]. split; [intros [X|[x X]]; discriminate X | exact N].
Qed.

Lemma monitoring_loop_keeps (env : environment) (thr : string)
    (again : list cycle -> polling -> notifier -> run * list cycle * polling * notifier)
    (bound : nat) (p : polling) :
  (forall cs a, (length cs < bound)%nat -> run_invariant 0 p a (again cs p a)) ->
  forall cs last a,
    (length cs <= bound)%nat ->
    run_invariant 1 p a (monitoring_loop env thr again cs last p a).
Proof.
  intros Again. induction cs as [|c rest IH]; intros last a B.
  - simpl. split; [apply same_store_refl|]. intros Q. split; [exact Q|].
    split; [intros [X|[x X]]; discriminate X|].
    intros St. split; [exact St | discriminate].
  - simpl in B. cbn [monitoring_loop].
    destruct (iteration_keeps env thr c last a) as (S & Ls & Lt).
    destruct (iteration env thr c last a) as [[last'|e] b]; cbn [snd] in S, Ls, Lt.
    + apply (run_invariant_shift 1 p a b _ S Ls Lt). apply IH. lia.
    + assert (Plain : forall res b',
                same_store b b' ->
                loop_starts (trace b') = loop_starts (trace b) ->
                loop_stops (trace b') = loop_stops (trace b) ->
                (forall x, res = Raised x -> is_Exception x = false) ->
                run_invariant 0 p a (res, rest, p, b')).
      { intros res b' S' Ls' Lt' N. split; [eapply same_store_trans; eassumption|].
        intros Q. split; [exact Q|]. split; [intros _; lia|].
        intros St. split; [exact St | exact N]. }
      destruct e as [|status|class text].
      * apply finally_stop_keeps, Plain.
        -- now repeat split.
        -- rewrite loop_starts_emit. cbn [loop_starts filter length]. lia.
        -- rewrite loop_stops_emit. cbn [loop_stops filter length]. lia.
        -- discriminate.
      * apply finally_stop_keeps, Plain.
        -- apply same_store_refl.
        -- reflexivity.
        -- reflexivity.
        -- now intros x [= <-].
      * cbn [is_Exception]. apply finally_stop_keeps.
        set (a3 := emit (Sleep 60) _).
        apply (run_invariant_shift 0 p a a3).
        -- eapply same_store_trans; [exact S|]. subst a3. now repeat split.
        -- subst a3. rewrite !loop_starts_emit.
           cbn [loop_starts filter length]. lia.
        -- subst a3. rewrite !loop_stops_emit.
           cbn [loop_stops filter length]. lia.
        -- apply Again. lia.
Qed.

Lemma run_monitoring_keeps (env : environment) (thr : string) :
  forall (n room : nat) (cs : list cycle) (p : polling) (a : notifier),
    length cs = n ->
    run_invariant 0 p a (run_monitoring_nested env room thr cs p a).
Proof.
  induction n as [n IH] using lt_wf_ind. intros room cs p a L.
  rewrite run_monitoring_eq. cbv zeta. unfold start_polling.
  set (a2 := emit (LogInfo ("EOD report time: " ++ thr)) _).
  assert (S2 : same_store a a2) by (subst a2; now repeat split).
  assert (Ls2 : loop_starts (trace a2) = loop_starts (trace a))
    by (subst a2; rewrite !loop_starts_emit; cbn [loop_starts filter length]; lia).
  assert (Lt2 : loop_stops (trace a2) = loop_stops (trace a))
    by (subst a2; rewrite !loop_stops_emit; cbn [loop_stops filter length]; lia).
  set (p1 := {| starts := tl (starts p); stops := stops p |}).
  assert (Enter :
            (forall e more, starts p <> Some e :: more) ->
            run_invariant 0 p a
              (monitoring_loop env thr (restart env room thr) cs None p1
                 (emit (LogInfo "Bot started polling") (emit StartPolling a2)))).
  { intros NoFault.
    set (a3 := emit (LogInfo "Bot started polling") (emit StartPolling a2)).
    assert (Again : forall cs' a', (length cs' < n)%nat ->
                      run_invariant 0 p1 a' (restart env room thr cs' p1 a')).
    { intros cs' a' H. destruct room as [|room]; cbn [restart].
      - split; [apply same_store_refl|]. intros Q. split; [exact Q|].
        split; [intros [X|[x X]]; discriminate X|].
        intros St. split; [exact St | discriminate].
      - exact (IH (length cs') H room cs' p1 a' eq_refl). }
    pose proof (monitoring_loop_keeps env thr (restart env room thr) n p1 Again
                  cs None a3 ltac:(lia)) as K.
    destruct (monitoring_loop env thr (restart env room thr) cs None p1 a3)
      as [[[res rest] p'] b].
    destruct K as (S & H). split.
    - eapply same_store_trans; [|exact S].
      eapply same_store_trans; [exact S2|]. subst a3. now repeat split.
    - intros Q. destruct (H Q) as (Q' & Bal & N). split; [exact Q'|]. split.
      + intros R. specialize (Bal R). subst a3.
        rewrite !loop_starts_emit, !loop_stops_emit in Bal.
        cbn [loop_starts loop_stops filter length] in Bal. lia.
      + intros St. apply N. subst p1. cbn [starts]. now rewrite St. }
  destruct (starts p) as [|[e|] more] eqn:St.
  - apply Enter. discriminate.
  - split; [exact S2|]. intros Q. split; [exact Q|]. split; [intros _; lia|].
    intros X. congruence.
  - apply Enter. discriminate.
Qed.

(** X13. The monitoring loop never touches the store.  Whatever the
    cycles bring (notifications, reports, faults, restarts, an interrupt)
    and whatever polling does, the users, the users file and the interval
    are after [run_monitoring] what they were before. *)
Theorem monitoring_keeps_the_store (env : environment) (thr : string)
    (cs : list cycle) (p : polling) (a : notifier) :
  same_store a (snd (run_monitoring env thr cs p a)).
Proof.
  unfold run_monitoring.
  pose proof (run_monitoring_keeps env thr (length cs) (nesting_room env) cs p a
                eq_refl) as K.
  destruct (run_monitoring_nested env (nesting_room env) thr cs p a)
    as [[[res rest] p'] b].
  exact (proj1 K).
Qed.

(** X14. Polling is stopped as often as it is started.  When
    [self.updater.stop()] does not fail, a call of [run_monitoring] that has
    come to an end, by return or by exception, with the restarts of its
    loop nested within the room the recursion limit leaves, has stopped
    polling exactly as many times as it started it. *)
Theorem polling_stops_as_often_as_it_starts (env : environment) (thr : string)
    (cs : list cycle) (p : polling) (a : notifier) :
  stops p = [] ->
  ended (fst (fst (fst (run_monitoring env thr cs p a)))) ->
  (loop_stops (trace (snd (run_monitoring env thr cs p a))) + loop_starts (trace a)
   = loop_starts (trace (snd (run_monitoring env thr cs p a))) + loop_stops (trace a))%nat.
Proof.
  unfold run_monitoring. intros Q R.
  pose proof (run_monitoring_keeps env thr (length cs) (nesting_room env) cs p a
                eq_refl) as K.
  destruct (run_monitoring_nested env (nesting_room env) thr cs p a)
    as [[[res rest] p'] b].
  destruct K as (_ & H). destruct (H Q) as (_ & Bal & _).
  cbn [fst snd] in *. specialize (Bal R). lia.
Qed.

Lemma polling_stops_as_often_as_it_starts_witness :
  let cs := [cycle_at (march 4) 10 0 eod_ready (Some disk_full);
             cycle_at (march 4) 10 0 eod_ready (Some disk_full);
             cycle_at (march 4) 10 0 eod_ready (Some KeyboardInterrupt)] in
  (loop_stops (trace (snd (run_monitoring env_ok "16:00" cs calm with_three))) + 0
   = loop_starts (trace (snd (run_monitoring env_ok "16:00" cs calm with_three))) + 0)%nat.
Proof.
  refine (polling_stops_as_often_as_it_starts env_ok "16:00" _ calm with_three
            eq_refl _).
  vm_compute. left. reflexivity.
Defined.

Lemma retry_loop_first (env : environment) (fuel : nat) (thr : string)
    (retry_count : nat) (cs : list cycle) (p : polling) (a : notifier) :
  (retry_count < max_retries)%nat ->
  (forall e, fst (fst (fst (run_monitoring env thr cs p a))) = Raised e ->
             is_Exception e = false) ->
  retry_loop env (S fuel) thr retry_count cs p a =
    Some (match fst (fst (fst (run_monitoring env thr cs p a))) with
          | Returned => Exit 0
          | Raised e => Uncaught e
          | Pending => Running
          | TooDeep => Unfollowed
          end,
          snd (run_monitoring env thr cs p a)).
Proof.
  intros H N. cbn [retry_loop]. apply Nat.ltb_lt in H. rewrite H.
  destruct (run_monitoring env thr cs p a) as [[[[|e| |] rest] p'] b];
    cbn [fst snd] in *; try reflexivity.
  now rewrite (N e eq_refl).
Qed.

(** X15. When polling starts and stops without fault and the restarts of
    the loop nest within the room the recursion limit leaves, [main] calls
    [run_monitoring] exactly once and its retry budget is never used.  No
    [Exception] leaves [run_monitoring]: the call returns (status 0), or is
    still in its loop, or is left by an exception that is not an
    [Exception]; the trace of [main] is the trace of that one call, with no
    retry line, no backoff and no exit with status 1. *)
Theorem healthy_polling_never_retries (env : environment) (token : string)
    (interval : Z) (thr : string) (file : file_state) (cs : list cycle)
    (a : notifier) :
  token <> "" ->
  init file interval [] = Returns a ->
  let r := run_monitoring env thr cs calm a in
  fst (fst (fst r)) <> TooDeep ->
  (forall e, fst (fst (fst r)) = Raised e -> is_Exception e = false) /\
  main env (Some token) interval thr file cs calm =
    Some (match fst (fst (fst r)) with
          | Returned => Exit 0
          | Raised e => Uncaught e
          | Pending => Running
          | TooDeep => Unfollowed
          end,
          trace (snd r)).
Proof.
  intros T I r Followed.
  assert (N : forall e, fst (fst (fst r)) = Raised e -> is_Exception e = false).
  { pose proof (run_monitoring_keeps env thr (length cs) (nesting_room env) cs calm a
                  eq_refl) as K.
    unfold r, run_monitoring.
    destruct (run_monitoring_nested env (nesting_room env) thr cs calm a)
      as [[[res rest] p'] b].
    destruct K as (_ & H). destruct (H eq_refl) as (_ & _ & M).
    exact (proj2 (M eq_refl)). }
  split; [exact N|].
  unfold main. destruct (String.eqb_spec token "") as [E|_]; [contradiction|].
  rewrite I. change (retry_loop env max_retries) with (retry_loop env 5).
  rewrite (retry_loop_first env 4 thr 0 cs calm a); [reflexivity | | exact N].
  unfold max_retries. lia.
Qed.

Lemma healthy_polling_never_retries_witness :
  main env_ok (Some "123:abc") 600 "16:00" Missing
    [cycle_at (march 4) 10 0 eod_ready None;
     cycle_at (march 4) 10 10 eod_ready (Some (SystemExit 3))] calm
  = Some (Uncaught (SystemExit 3),
          trace (snd (run_monitoring env_ok "16:00"
                        [cycle_at (march 4) 10 0 eod_ready None;
                         cycle_at (march 4) 10 10 eod_ready (Some (SystemExit 3))]
                        calm
                        {| users := []; users_file := Missing;
                           check_interval := 600; trace := [] |}))).
Proof.
  assert (T : "123:abc" <> "") by discriminate.
  refine (proj2 (healthy_polling_never_retries env_ok "123:abc" 600 "16:00" Missing
                   [cycle_at (march 4) 10 0 eod_ready None;
                    cycle_at (march 4) 10 10 eod_ready (Some (SystemExit 3))]
                   _ T eq_refl _)).
  vm_compute. discriminate.
Defined.

(** ** Restarts, again *)









(** ** The threshold as a string *)

Lemma below_in_seq (n k : nat) : (n < k)%nat -> In n (seq 0 k).
Proof. intros H. apply in_seq. lia. Qed.

Lemma two_digits_chars (n : nat) :
  (n < 100)%nat ->
  two_digits n = String (digit (n / 10)) (String (digit (n mod 10)) EmptyString).
Proof.
  intros H.
  assert (A : forallb
                (fun n => String.eqb (two_digits n)
                            (String (digit (n / 10))
                               (String (digit (n mod 10)) EmptyString)))
                (seq 0 100) = true) by (vm_compute; reflexivity).
  rewrite forallb_forall in A. apply String.eqb_eq, A. now apply below_in_seq.
Qed.

Lemma str_nat_char (n : nat) :
  (n < 10)%nat -> str_nat n = String (digit n) EmptyString.
Proof.
  intros H.
  assert (A : forallb
                (fun n => String.eqb (str_nat n) (String (digit n) EmptyString))
                (seq 0 10) = true) by (vm_compute; reflexivity).
  rewrite forallb_forall in A. apply String.eqb_eq, A. now apply below_in_seq.
Qed.

Lemma digit_compare (a b : nat) :
  (a < 10)%nat -> (b < 10)%nat ->
  Ascii.compare (digit a) (digit b) = Nat.compare a b.
Proof.
  intros Ha Hb.
  assert (A : forallb
                (fun a => forallb
                            (fun b =>
                               match Ascii.compare (digit a) (digit b), Nat.compare a b with
                               | Eq, Eq | Lt, Lt | Gt, Gt => true
                               | _, _ => false
                               end)
                            (seq 0 10))
                (seq 0 10) = true) by (vm_compute; reflexivity).
  rewrite forallb_forall in A. specialize (A a (below_in_seq a 10 Ha)).
  rewrite forallb_forall in A. specialize (A b (below_in_seq b 10 Hb)).
  destruct (Ascii.compare (digit a) (digit b)), (Nat.compare a b);
    reflexivity || discriminate A.
Qed.

(** Two digits compare as the numbers they write, then the rest decides. *)
Lemma two_digits_compare (a b : nat) (r s : string) :
  (a < 100)%nat -> (b < 100)%nat ->
  String.compare (two_digits a ++ r) (two_digits b ++ s) =
    match Nat.compare a b with
    | Eq => String.compare r s
    | Lt => Lt
    | Gt => Gt
    end.
Proof.
  intros Ha Hb. rewrite (two_digits_chars a Ha), (two_digits_chars b Hb).
  cbn [String.append String.compare].
  assert (Qa : (a / 10 < 10)%nat) by (apply Nat.Div0.div_lt_upper_bound; lia).
  assert (Qb : (b / 10 < 10)%nat) by (apply Nat.Div0.div_lt_upper_bound; lia).
  assert (Ra : (a mod 10 < 10)%nat) by (apply Nat.mod_upper_bound; lia).
  assert (Rb : (b mod 10 < 10)%nat) by (apply Nat.mod_upper_bound; lia).
  rewrite (digit_compare _ _ Qa Qb), (digit_compare _ _ Ra Rb).
  pose proof (Nat.div_mod_eq a 10) as Ea. pose proof (Nat.div_mod_eq b 10) as Eb.
  destruct (Nat.compare_spec (a / 10) (b / 10)) as [Q|Q|Q];
    [destruct (Nat.compare_spec (a mod 10) (b mod 10)) as [R|R|R]| |].
  - replace (a ?= b)%nat with Eq; [reflexivity|].
    symmetry. apply Nat.compare_eq_iff. lia.
  - replace (a ?= b)%nat with Lt; [reflexivity|].
    symmetry. apply Nat.compare_lt_iff. lia.
  - replace (a ?= b)%nat with Gt; [reflexivity|].
    symmetry. apply Nat.compare_gt_iff. lia.
  - replace (a ?= b)%nat with Lt; [reflexivity|].
    symmetry. apply Nat.compare_lt_iff. lia.
  - replace (a ?= b)%nat with Gt; [reflexivity|].
    symmetry. apply Nat.compare_gt_iff. lia.
Qed.

Lemma append_empty (s : string) : s ++ "" = s.
Proof. induction s as [|c s IH]; simpl; [reflexivity | now rewrite IH]. Qed.

Lemma strftime_compare (t t' : datetime) :
  clock t -> clock t' ->
  String.compare (strftime_HM t') (strftime_HM t) = Nat.compare (minutes t') (minutes t).
Proof.
  intros [H M] [H' M']. unfold strftime_HM, minutes.
  rewrite two_digits_compare by lia.
  cbn [String.append String.compare].
  change (Ascii.compare ":" ":") with Eq. cbv iota.
  rewrite <- (append_empty (two_digits (minute t'))),
          <- (append_empty (two_digits (minute t))).
  rewrite two_digits_compare by lia. cbn [String.compare].
  destruct (Nat.compare_spec (hour t') (hour t)) as [Q|Q|Q];
    [destruct (Nat.compare_spec (minute t') (minute t)) as [R|R|R]| |];
    symmetry.
  - apply Nat.compare_eq_iff. lia.
  - apply Nat.compare_lt_iff. lia.
  - apply Nat.compare_gt_iff. lia.
  - apply Nat.compare_lt_iff. lia.
  - apply Nat.compare_gt_iff. lia.
Qed.

(** X18. With a threshold written as a time of day, hours and minutes on
    two digits each, the comparison of strings is the comparison of clocks:
    the reading at [t] is at or after the threshold exactly when [t] is no
    earlier in the day, so the report is due exactly then on a date the
    watermark does not hold. *)
Theorem padded_threshold_is_the_clock (t at_ : datetime) (last : option date) :
  clock t -> clock at_ ->
  str_ge (strftime_HM t) (strftime_HM at_) = (minutes at_ <=? minutes t)%nat /\
  eod_due (strftime_HM at_) last t
    = (minutes at_ <=? minutes t)%nat && watermark_differs last (today t).
Proof.
  intros C C'.
  assert (G : str_ge (strftime_HM t) (strftime_HM at_) = (minutes at_ <=? minutes t)%nat).
  { unfold str_ge, String.leb. rewrite (strftime_compare t at_ C C').
    destruct (Nat.compare_spec (minutes at_) (minutes t)) as [Q|Q|Q]; symmetry.
    - apply Nat.leb_le. lia.
    - apply Nat.leb_le. lia.
    - apply Nat.leb_gt. lia. }
  split; [exact G|]. unfold eod_due. now rewrite G.
Qed.

Lemma padded_threshold_is_the_clock_witness :
  str_ge (strftime_HM {| today := march 4; hour := 9; minute := 30 |})
         (strftime_HM {| today := march 4; hour := 16; minute := 0 |})
  = false.
Proof.
  refine (proj1 (padded_threshold_is_the_clock
                   {| today := march 4; hour := 9; minute := 30 |}
                   {| today := march 4; hour := 16; minute := 0 |} None _ _));
    unfold clock; simpl; lia.
Defined.

(** X19. A threshold whose hour is a single digit from 3 to 9, such as
    [9:00], is never reached: every reading of the clock begins with 0, 1 or
    2, which sorts before it, so the end-of-day report never runs, at any
    time of any day. *)
Theorem unpadded_threshold_never_fires (h : nat) (rest : string) (t : datetime)
    (last : option date) :
  (3 <= h)%nat -> (h <= 9)%nat -> clock t ->
  str_ge (strftime_HM t) (str_nat h ++ rest) = false /\
  eod_due (str_nat h ++ rest) last t = false.
Proof.
  intros L U [H M].
  assert (G : str_ge (strftime_HM t) (str_nat h ++ rest) = false).
  { unfold str_ge, String.leb, strftime_HM.
    rewrite (str_nat_char h) by lia. rewrite (two_digits_chars (hour t)) by lia.
    cbn [String.append String.compare].
    assert (Q : (hour t / 10 < 3)%nat) by (apply Nat.Div0.div_lt_upper_bound; lia).
    rewrite digit_compare by lia.
    replace (h ?= hour t / 10)%nat with Gt; [reflexivity|].
    symmetry. apply Nat.compare_gt_iff. lia. }
  split; [exact G|]. unfold eod_due. now rewrite G.
Qed.

Lemma unpadded_threshold_never_fires_witness :
  eod_due (str_nat 9 ++ ":00") None {| today := march 4; hour := 23; minute := 59 |}
  = false.
Proof.
  refine (proj2 (unpadded_threshold_never_fires 9 ":00"
                   {| today := march 4; hour := 23; minute := 59 |} None _ _ _));
    unfold clock; simpl; lia.
Defined.
